(** * O Que Tem Aí? — the recipe page of [src/index.tsx]

    A shallow embedding of the [App] component: its React state, the
    camera handlers ([startCamera], [stopCamera], [captureAndAnalyze]),
    the generation cycle ([generateRecipe]), the export formatter
    ([getMarkdownRecipe]) and the button handlers of the page, followed
    by the properties of the capture session, the variation counter and
    the formatter.

    Conventions.
    - A JavaScript string is modelled by the bytes of its UTF-8 encoding
      (a Rocq [string]).
    - An awaited promise is modelled by its outcome ([Settled]), supplied
      by the environment: the camera device and the generative model are
      outside the program.
    - [try]/[catch]/[finally] are modelled by a state-and-exception monad
      over the component state.
    - The two camera handlers are split at their [await], so that the
      close button can be pressed in between; a generation cycle is run
      to its end, since both buttons that start one are disabled while
      [loading] holds.
    - Copying, sharing and printing act on the browser around the page:
      its clipboard, its share sheet and its timers ([Browser]). *)

From Stdlib Require Import Ascii String ZArith NArith Lia Bool List DecimalString.
From stdpp Require Import base option list strings.


(* ================================================================== *)
(** * The JavaScript values and built-ins the page uses               *)
(* ================================================================== *)

Module JS.

Local Open Scope char_scope.

(** ** Strings *)

Definition LF : string := String "010" EmptyString.
Definition dquote : string := String "034" EmptyString.

Definition chars (s : string) : list ascii := list_ascii_of_string s.
Definition unchars (l : list ascii) : string := string_of_list_ascii l.
Definition code (c : ascii) : N := N_of_ascii c.

(** [ToBoolean] of a string: every string but the empty one is truthy. *)
Definition truthy (s : string) : bool :=
  match s with
  | EmptyString => false
  | String _ _ => true
  end.

(** [a || d] where [a : string | undefined]. *)
Definition or_default (a : option string) (d : string) : string :=
  match a with
  | Some s => if truthy s then s else d
  | None => d
  end.

(** [ToString] of a [string | undefined] inside a template literal. *)
Definition interpolate (a : option string) : string :=
  match a with
  | Some s => s
  | None => "undefined"
  end.

(** [ToString] of an array index plus one: the decimal digits. *)
Definition Number_toString (n : nat) : string :=
  NilZero.string_of_uint (Nat.to_uint n).

(** [Array.prototype.join] on an array of strings. *)
Fixpoint join (sep : string) (l : list string) : string :=
  match l with
  | [] => EmptyString
  | [x] => x
  | x :: r => x +:+ sep +:+ join sep r
  end.

(** [String.prototype.split(sep)] for a one-character separator. *)
Fixpoint split_chars (sep : ascii) (cur : list ascii) (l : list ascii)
  : list string :=
  match l with
  | [] => [unchars (rev cur)]
  | c :: r =>
      if Ascii.eqb c sep
      then unchars (rev cur) :: split_chars sep [] r
      else split_chars sep (c :: cur) r
  end.

Definition split (sep : ascii) (s : string) : list string :=
  split_chars sep [] (chars s).

(** ** [String.prototype.trim]

    The characters removed are ECMAScript's WhiteSpace and
    LineTerminator code points, recognised here in their UTF-8 form. *)

Definition dropWhiteSpace1 (l : list N) : option (list N) :=
  match l with
  | (9 | 10 | 11 | 12 | 13 | 32)%N :: r => Some r
  | 194%N :: 160%N :: r => Some r                         (* U+00A0 *)
  | 225%N :: 154%N :: 128%N :: r => Some r                (* U+1680 *)
  | 226%N :: 128%N :: c :: r =>                           (* U+2000..200A, *)
      if ((128 <=? c) && (c <=? 138))%N                   (* 2028, 2029, 202F *)
         || (c =? 168)%N || (c =? 169)%N || (c =? 175)%N
      then Some r else None
  | 226%N :: 129%N :: 159%N :: r => Some r                (* U+205F *)
  | 227%N :: 128%N :: 128%N :: r => Some r                (* U+3000 *)
  | 239%N :: 187%N :: 191%N :: r => Some r                (* U+FEFF *)
  | _ => None
  end.

Fixpoint trimStart_fuel (fuel : nat) (l : list N) : list N :=
  match fuel with
  | O => l
  | S fuel' =>
      match dropWhiteSpace1 l with
      | Some r => trimStart_fuel fuel' r
      | None => l
      end
  end.

Definition trimStart_codes (l : list N) : list N :=
  trimStart_fuel (length l) l.

Fixpoint trimEnd_codes (l : list N) : list N :=
  match l with
  | [] => []
  | c :: r =>
      match trimStart_codes l with
      | [] => []
      | _ :: _ => c :: trimEnd_codes r
      end
  end.

Definition trim (s : string) : string :=
  unchars (map ascii_of_N (trimEnd_codes (trimStart_codes (map code (chars s))))).

(** ** Exceptions and completions *)

Inductive Exn : Type :=
| TypeError
| SyntaxError
| Rejection.      (* the reason of a rejected promise *)

Inductive Completion (A : Type) : Type :=
| Normal (a : A)
| Throw (e : Exn).
Arguments Normal {A} a.
Arguments Throw {A} e.

(** The outcome of an awaited promise. *)
Inductive Settled (A : Type) : Type :=
| Fulfilled (a : A)
| Rejected.
Arguments Fulfilled {A} a.
Arguments Rejected {A}.


(** ** Values

    What [JSON.parse] can return, plus the named properties the program
    may later add to an object or an array.  A number is kept as the
    text that denotes it: the program never computes with one. *)

#[warnings="-register-all"]
Inductive JSValue : Type :=
| JSNull
| JSBoolean (b : bool)
| JSNumber (lexeme : string)
| JSString (s : string)
| JSArray (elems : list JSValue) (named : list (string * JSValue))
| JSObject (props : list (string * JSValue)).

Fixpoint lookup_prop (k : string) (ps : list (string * JSValue))
  : option JSValue :=
  match ps with
  | [] => None
  | (k', v) :: r => if String.eqb k k' then Some v else lookup_prop k r
  end.

(** Writing a property keeps the place of a key that already exists and
    appends a new key at the end. *)
Fixpoint assign_prop (k : string) (v : JSValue) (ps : list (string * JSValue))
  : list (string * JSValue) :=
  match ps with
  | [] => [(k, v)]
  | (k', v') :: r =>
      if String.eqb k k' then (k, v) :: r else (k', v') :: assign_prop k v r
  end.

(** [o.k] for a property name that no prototype defines ([name],
    [imageUrl], ...): [None] stands for [undefined].  Reading a property
    of [null] throws. *)
Definition Get (o : JSValue) (k : string) : Completion (option JSValue) :=
  match o with
  | JSNull => Throw TypeError
  | JSObject ps => Normal (lookup_prop k ps)
  | JSArray _ ps => Normal (lookup_prop k ps)
  | JSBoolean _ | JSNumber _ | JSString _ => Normal None
  end.

(** [o.k = v] in strict code (a module is strict): creating a property
    on [null] or on a primitive throws. *)
Definition Put (o : JSValue) (k : string) (v : JSValue) : Completion JSValue :=
  match o with
  | JSObject ps => Normal (JSObject (assign_prop k v ps))
  | JSArray es ps => Normal (JSArray es (assign_prop k v ps))
  | JSNull | JSBoolean _ | JSNumber _ | JSString _ => Throw TypeError
  end.

(** ** [JSON.parse] *)

Definition isJSONWhiteSpace (c : ascii) : bool :=
  match code c with
  | (9 | 10 | 13 | 32)%N => true
  | _ => false
  end.

Fixpoint skipWS (l : list ascii) : list ascii :=
  match l with
  | [] => []
  | c :: r => if isJSONWhiteSpace c then skipWS r else l
  end.

Definition isDigit (c : ascii) : bool := ((48 <=? code c) && (code c <=? 57))%N.

Fixpoint takeDigits (l : list ascii) : list ascii * list ascii :=
  match l with
  | [] => ([], [])
  | c :: r =>
      if isDigit c
      then let '(ds, rest) := takeDigits r in (c :: ds, rest)
      else ([], l)
  end.

(** A number: an optional minus sign; a zero, or a non-zero digit and
    more digits; optionally a point and digits; optionally an exponent
    mark, a sign and digits. *)
Definition lexSign (signs : list ascii) (l : list ascii)
  : list ascii * list ascii :=
  match l with
  | c :: r => if existsb (Ascii.eqb c) signs then ([c], r) else ([], l)
  | [] => ([], l)
  end.

Definition lexInt (l : list ascii) : option (list ascii * list ascii) :=
  match l with
  | [] => None
  | c :: r =>
      if Ascii.eqb c "0" then Some ([c], r)
      else if isDigit c
      then let '(ds, rest) := takeDigits r in Some (c :: ds, rest)
      else None
  end.

Definition lexDigits (l : list ascii) : option (list ascii * list ascii) :=
  match takeDigits l with
  | ([], _) => None
  | (ds, rest) => Some (ds, rest)
  end.

Definition lexFrac (l : list ascii) : option (list ascii * list ascii) :=
  match l with
  | c :: r =>
      if Ascii.eqb c "."
      then '(ds, rest) ← lexDigits r; Some (c :: ds, rest)
      else Some ([], l)
  | [] => Some ([], l)
  end.

Definition lexExp (l : list ascii) : option (list ascii * list ascii) :=
  match l with
  | c :: r =>
      if Ascii.eqb c "e" || Ascii.eqb c "E"
      then let '(sign, r1) := lexSign ["+"; "-"] r in
           '(ds, rest) ← lexDigits r1; Some (c :: sign ++ ds, rest)
      else Some ([], l)
  | [] => Some ([], l)
  end.

Definition lexNumber (l : list ascii) : option (string * list ascii) :=
  let '(sign, l1) := lexSign ["-"] l in
  '(int, l2) ← lexInt l1;
  '(frac, l3) ← lexFrac l2;
  '(exp, l4) ← lexExp l3;
  Some (unchars (sign ++ int ++ frac ++ exp), l4).

(** The characters of a string literal: written as they are, or as a
    [\uXXXX] escape that names one UTF-16 code unit. *)
Inductive StrItem : Type :=
| Raw (c : ascii)
| Unit16 (u : N).

Definition hexDigit (c : ascii) : option N :=
  let n := code c in
  if ((48 <=? n) && (n <=? 57))%N then Some (n - 48)%N
  else if ((65 <=? n) && (n <=? 70))%N then Some (n - 55)%N
  else if ((97 <=? n) && (n <=? 102))%N then Some (n - 87)%N
  else None.

Definition hex4 (a b c d : ascii) : option N :=
  x ← hexDigit a; y ← hexDigit b; z ← hexDigit c; w ← hexDigit d;
  Some (((x * 16 + y) * 16 + z) * 16 + w)%N.

Definition simpleEscape (c : ascii) : option ascii :=
  match c with
  | "034" => Some "034"
  | "\" => Some "\"
  | "/" => Some "/"
  | "b" => Some "008"
  | "f" => Some "012"
  | "n" => Some "010"
  | "r" => Some "013"
  | "t" => Some "009"
  | _ => None
  end.

(** The input after the opening quote, up to and including the closing one. *)
Fixpoint lexString (l : list ascii) : option (list StrItem * list ascii) :=
  match l with
  | [] => None
  | c :: r =>
      if Ascii.eqb c "034" then Some ([], r)
      else if Ascii.eqb c "\" then
        match r with
        | [] => None
        | e :: r1 =>
            match simpleEscape e with
            | Some ch =>
                '(items, rest) ← lexString r1; Some (Raw ch :: items, rest)
            | None =>
                if Ascii.eqb e "u" then
                  match r1 with
                  | h1 :: h2 :: h3 :: h4 :: r2 =>
                      u ← hex4 h1 h2 h3 h4;
                      '(items, rest) ← lexString r2;
                      Some (Unit16 u :: items, rest)
                  | _ => None
                  end
                else None
            end
        end
      else if (code c <? 32)%N then None
      else '(items, rest) ← lexString r; Some (Raw c :: items, rest)
  end.

Definition utf8 (cp : N) : list ascii :=
  map ascii_of_N
    (if cp <? 128 then [cp]
     else if cp <? 2048 then [192 + cp / 64; 128 + cp mod 64]
     else if cp <? 65536 then
       [224 + cp / 4096; 128 + (cp / 64) mod 64; 128 + cp mod 64]
     else
       [240 + cp / 262144; 128 + (cp / 4096) mod 64;
        128 + (cp / 64) mod 64; 128 + cp mod 64])%N.

Definition isHighSurrogate (u : N) : bool := ((55296 <=? u) && (u <=? 56319))%N.
Definition isLowSurrogate (u : N) : bool := ((56320 <=? u) && (u <=? 57343))%N.

(** A surrogate pair is one code point; a lone surrogate is kept in the
    three-byte form. *)
Fixpoint encodeItems (l : list StrItem) : list ascii :=
  match l with
  | [] => []
  | Raw c :: r => c :: encodeItems r
  | Unit16 hi :: r =>
      match r with
      | Unit16 lo :: r' =>
          if isHighSurrogate hi && isLowSurrogate lo
          then utf8 (65536 + (hi - 55296) * 1024 + (lo - 56320))%N ++ encodeItems r'
          else utf8 hi ++ encodeItems r
      | _ => utf8 hi ++ encodeItems r
      end
  end.

Definition lexStringValue (l : list ascii) : option (string * list ascii) :=
  '(items, rest) ← lexString l; Some (unchars (encodeItems items), rest).

(** The input after a given word, when it starts with that word. *)
Fixpoint dropWord (word l : list ascii) : option (list ascii) :=
  match word, l with
  | [], _ => Some l
  | a :: word', b :: l' => if Ascii.eqb a b then dropWord word' l' else None
  | _ :: _, [] => None
  end.

(** [true], [false], [null], or a number. *)
Definition lexScalar (l : list ascii) : option (JSValue * list ascii) :=
  match dropWord (chars "true") l with
  | Some r => Some (JSBoolean true, r)
  | None =>
      match dropWord (chars "false") l with
      | Some r => Some (JSBoolean false, r)
      | None =>
          match dropWord (chars "null") l with
          | Some r => Some (JSNull, r)
          | None => '(n, rest) ← lexNumber l; Some (JSNumber n, rest)
          end
      end
  end.

(** A later member with the same key replaces the value of the earlier one. *)
Definition objectOfMembers (ms : list (string * JSValue)) : JSValue :=
  JSObject (foldl (λ acc kv, assign_prop kv.1 kv.2 acc) [] ms).

(** Whether the input, after white space, starts with a given character,
    and what follows it. *)
Definition expect (c : ascii) (l : list ascii) : option (list ascii) :=
  match skipWS l with
  | d :: r => if Ascii.eqb c d then Some r else None
  | [] => None
  end.

Fixpoint parseValue (fuel : nat) (l : list ascii) : option (JSValue * list ascii) :=
  match fuel with
  | O => None
  | S fuel' =>
      match expect "{" l with
      | Some r =>
          match expect "}" r with
          | Some r' => Some (JSObject [], r')
          | None => '(ms, rest) ← parseMembers fuel' r; Some (objectOfMembers ms, rest)
          end
      | None =>
          match expect "[" l with
          | Some r =>
              match expect "]" r with
              | Some r' => Some (JSArray [] [], r')
              | None => '(es, rest) ← parseElements fuel' r; Some (JSArray es [], rest)
              end
          | None =>
              match expect "034" l with
              | Some r => '(s, rest) ← lexStringValue r; Some (JSString s, rest)
              | None => lexScalar (skipWS l)
              end
          end
      end
  end
with parseMembers (fuel : nat) (l : list ascii)
  : option (list (string * JSValue) * list ascii) :=
  match fuel with
  | O => None
  | S fuel' =>
      r ← expect "034" l;
      '(k, r1) ← lexStringValue r;
      r2 ← expect ":" r1;
      '(v, r3) ← parseValue fuel' r2;
      match expect "," r3 with
      | Some r4 => '(ms, rest) ← parseMembers fuel' r4; Some ((k, v) :: ms, rest)
      | None => rest ← expect "}" r3; Some ([(k, v)], rest)
      end
  end
with parseElements (fuel : nat) (l : list ascii)
  : option (list JSValue * list ascii) :=
  match fuel with
  | O => None
  | S fuel' =>
      '(v, r1) ← parseValue fuel' l;
      match expect "," r1 with
      | Some r2 => '(es, rest) ← parseElements fuel' r2; Some (v :: es, rest)
      | None => rest ← expect "]" r1; Some ([v], rest)
      end
  end.

(** The three parsers call one another at most twice for each character
    they consume, so twice the length of the text is fuel enough. *)
Definition JSON_parse (text : string) : Completion JSValue :=
  let l := chars text in
  match parseValue (2 * length l + 2) l with
  | Some (v, rest) =>
      match skipWS rest with
      | [] => Normal v
      | _ :: _ => Throw SyntaxError
      end
  | None => Throw SyntaxError
  end.

End JS.
Import JS.

(* ================================================================== *)
(** * The environment: camera device and generative model             *)
(* ================================================================== *)

Module DOM.

(** [MediaStreamTrack.readyState]; [track.stop()] ends a track for good. *)
Inductive ReadyState : Type := Live | Ended.

Definition stop (t : ReadyState) : ReadyState := Ended.

(** A stream is the array [getTracks()] returns, with the size of the
    frames it delivers. *)
Record MediaStream : Type := mkStream {
  getTracks : list ReadyState;
  frameWidth : N;
  frameHeight : N
}.

(** [srcObject] refers to a stream of the device by its position in the
    list of the streams [getUserMedia] has handed out. *)
Record HTMLVideoElement : Type := mkVideo {
  srcObject : option nat
}.

Record HTMLCanvasElement : Type := mkCanvas {
  width : N;
  height : N
}.

(** What the page sees of the canvas when the shutter button is pressed:
    whether [getContext('2d')] gives a context, and the data URL that
    [toDataURL('image/jpeg', 0.8)] returns for the frame drawn. *)
Record Shot : Type := mkShot {
  context2d : bool;
  toDataURL : string
}.

End DOM.

Module GenAI.

(** The parts of [GenerateContentResponse] the page reads.  Every field
    is optional in the SDK's types. *)
Record Blob : Type := mkBlob {
  data : option string;
  mimeType : option string
}.

Record Part : Type := mkPart {
  inlineData : option Blob;
  partText : option string
}.

Record Content : Type := mkContent {
  parts : option (list Part)
}.

Record Candidate : Type := mkCandidate {
  content : option Content
}.

Record GenerateContentResponse : Type := mkResponse {
  candidates : option (list Candidate);
  text : option string            (* the value of the [text] accessor *)
}.

(** The three requests the page sends to [ai.models.generateContent]. *)
Inductive Request : Type :=
| VisionRequest (base64Image : option string) (mime instruction : string)
| RecipeRequest (contents systemInstruction : string)
| IllustrationRequest (dish : option JSValue) (aspectRatio : string).

End GenAI.
Import DOM GenAI.

(* ================================================================== *)
(** * The component                                                    *)
(* ================================================================== *)

Module App.

(** What the handlers do that can be seen from outside the component.  The
    newest effect is the head of the log. *)
Inductive Effect : Type :=
| GetUserMedia (facingMode : string)
| GenerateContent (model : string) (request : Request)
| ConsoleError (message : string)
| Alert (message : string)
| ShowRecipe (value : JSValue).   (* kept for each [setRecipe(value)] *)

(** [interface Recipe]. *)
Record Recipe : Type := mkRecipe {
  name : string;
  ingredients : list string;
  instructions : list string;
  totalTime : string;
  tip : option string;
  imageUrl : option string
}.

(** The [useState] cells and [useRef] boxes of [App], the streams of the
    camera device, and the log of effects.  [recipe] is declared
    [Recipe | null]; what it holds at run time is the value that
    [JSON.parse] returned, because [as Recipe] checks nothing. *)
Record AppState : Type := mkApp {
  input : string;
  preference : string;
  recipe : JSValue;
  loading : bool;
  isCameraOpen : bool;
  isAnalyzing : bool;
  variationCount : nat;
  copied : bool;
  videoRef : option HTMLVideoElement;
  canvasRef : option HTMLCanvasElement;
  streams : list MediaStream;
  log : list Effect
}.

Definition initial : AppState :=
  {| input := EmptyString; preference := EmptyString; recipe := JSNull;
     loading := false; isCameraOpen := false; isAnalyzing := false;
     variationCount := 0; copied := false;
     videoRef := None; canvasRef := None; streams := []; log := [] |}.

(** ** Handlers as computations over the state *)

Definition M (A : Type) : Type := AppState → Completion A * AppState.

Definition ret {A} (a : A) : M A := λ st, (Normal a, st).

Definition bind {A B} (m : M A) (k : A → M B) : M B :=
  λ st, match m st with
        | (Normal a, st') => k a st'
        | (Throw e, st') => (Throw e, st')
        end.

Definition throw {A} (e : Exn) : M A := λ st, (Throw e, st).
Definition gets {A} (f : AppState → A) : M A := λ st, (Normal (f st), st).
Definition modify (f : AppState → AppState) : M unit := λ st, (Normal tt, f st).
Definition lift {A} (c : Completion A) : M A := λ st, (c, st).

Definition await {A} (p : Settled A) : M A :=
  match p with
  | Fulfilled a => ret a
  | Rejected => throw Rejection
  end.

Definition try_catch {A} (body : M A) (handler : Exn → M A) : M A :=
  λ st, match body st with
        | (Normal a, st') => (Normal a, st')
        | (Throw e, st') => handler e st'
        end.

Definition try_finally {A} (body : M A) (finalizer : M unit) : M A :=
  λ st, let '(c, st') := body st in
        match finalizer st' with
        | (Normal _, st'') => (c, st'')
        | (Throw e, st'') => (Throw e, st'')
        end.

Definition when (b : bool) (m : M unit) : M unit := if b then m else ret tt.

(** The state a handler leaves behind. *)
Definition run {A} (m : M A) (st : AppState) : AppState := (m st).2.

Declare Scope js_scope.
Delimit Scope js_scope with js.
Notation "x <- m ;; k" := (bind m (λ x, k))
  (at level 20, m at level 99, k at level 200, only parsing) : js_scope.
Notation "m ;; k" := (bind m (λ _, k))
  (at level 100, k at level 200, only parsing, right associativity) : js_scope.
Local Open Scope js_scope.

(** ** State setters

    A setter takes the updater form [prev => next]; a render follows
    every update, so the video and the canvas of the camera modal exist
    exactly while [isCameraOpen] holds, and a modal that opens gets new
    elements. *)

Definition setInput (f : string → string) : M unit :=
  modify (λ st, mkApp (f (input st)) (preference st) (recipe st) (loading st)
    (isCameraOpen st) (isAnalyzing st) (variationCount st) (copied st)
    (videoRef st) (canvasRef st) (streams st) (log st)).

Definition setPreference (f : string → string) : M unit :=
  modify (λ st, mkApp (input st) (f (preference st)) (recipe st) (loading st)
    (isCameraOpen st) (isAnalyzing st) (variationCount st) (copied st)
    (videoRef st) (canvasRef st) (streams st) (log st)).

Definition setRecipe (r : JSValue) : M unit :=
  modify (λ st, mkApp (input st) (preference st) r (loading st)
    (isCameraOpen st) (isAnalyzing st) (variationCount st) (copied st)
    (videoRef st) (canvasRef st) (streams st) (ShowRecipe r :: log st)).

Definition setLoading (b : bool) : M unit :=
  modify (λ st, mkApp (input st) (preference st) (recipe st) b
    (isCameraOpen st) (isAnalyzing st) (variationCount st) (copied st)
    (videoRef st) (canvasRef st) (streams st) (log st)).

Definition mounted {A} (open : bool) (fresh : A) (ref : option A) : option A :=
  if open then Some (default fresh ref) else None.

Definition setIsCameraOpen (b : bool) : M unit :=
  modify (λ st, mkApp (input st) (preference st) (recipe st) (loading st)
    b (isAnalyzing st) (variationCount st) (copied st)
    (mounted b (mkVideo None) (videoRef st))
    (mounted b (mkCanvas 300 150) (canvasRef st))
    (streams st) (log st)).

Definition setIsAnalyzing (b : bool) : M unit :=
  modify (λ st, mkApp (input st) (preference st) (recipe st) (loading st)
    (isCameraOpen st) b (variationCount st) (copied st)
    (videoRef st) (canvasRef st) (streams st) (log st)).

Definition setVariationCount (f : nat → nat) : M unit :=
  modify (λ st, mkApp (input st) (preference st) (recipe st) (loading st)
    (isCameraOpen st) (isAnalyzing st) (f (variationCount st)) (copied st)
    (videoRef st) (canvasRef st) (streams st) (log st)).

(** Writes through the refs and to the device. *)
Definition setVideo (v : HTMLVideoElement) : M unit :=
  modify (λ st, mkApp (input st) (preference st) (recipe st) (loading st)
    (isCameraOpen st) (isAnalyzing st) (variationCount st) (copied st)
    (Some v) (canvasRef st) (streams st) (log st)).

Definition setCanvas (c : HTMLCanvasElement) : M unit :=
  modify (λ st, mkApp (input st) (preference st) (recipe st) (loading st)
    (isCameraOpen st) (isAnalyzing st) (variationCount st) (copied st)
    (videoRef st) (Some c) (streams st) (log st)).

Definition setStreams (f : list MediaStream → list MediaStream) : M unit :=
  modify (λ st, mkApp (input st) (preference st) (recipe st) (loading st)
    (isCameraOpen st) (isAnalyzing st) (variationCount st) (copied st)
    (videoRef st) (canvasRef st) (f (streams st)) (log st)).

Definition emit (e : Effect) : M unit :=
  modify (λ st, mkApp (input st) (preference st) (recipe st) (loading st)
    (isCameraOpen st) (isAnalyzing st) (variationCount st) (copied st)
    (videoRef st) (canvasRef st) (streams st) (e :: log st)).

(** ** The camera *)

(** [await navigator.mediaDevices.getUserMedia(...)]: a fulfilled request
    adds a stream to the device, and the handler gets a reference to it. *)
Definition awaitUserMedia (p : Settled MediaStream) : M nat :=
  stream <- await p;;
  id <- gets (λ st, length (streams st));;
  setStreams (λ ss, ss ++ [stream]);;
  ret id.

(** [startCamera], up to its [await]. *)
Definition startCamera_request : M unit :=
  setIsCameraOpen true;;
  emit (GetUserMedia "environment").

(** [startCamera], from its [await] on: the rest of the [try] block and
    the [catch] block. *)
Definition startCamera_settled (p : Settled MediaStream) : M unit :=
  try_catch
    (stream <- awaitUserMedia p;;
     video <- gets videoRef;;
     match video with
     | Some _ => setVideo (mkVideo (Some stream))
     | None => ret tt
     end)
    (λ err,
     emit (ConsoleError "Erro ao acessar câmera:");;
     emit (Alert "Não foi possível acessar a câmera. Verifique as permissões.");;
     setIsCameraOpen false).

Definition startCamera (p : Settled MediaStream) : M unit :=
  startCamera_request;; startCamera_settled p.

Definition stopTracks (s : MediaStream) : MediaStream :=
  mkStream (stop <$> getTracks s) (frameWidth s) (frameHeight s).

Definition stopCamera : M unit :=
  video <- gets videoRef;;
  match video with
  | Some (mkVideo (Some stream)) => setStreams (alter stopTracks stream)
  | _ => ret tt
  end;;
  setIsCameraOpen false.

(** [prev => prev ? `${prev}, ${detectedIngredients}` : detectedIngredients] *)
Definition mergeIngredients (detectedIngredients prev : string) : string :=
  if truthy prev then prev +:+ ", " +:+ detectedIngredients
  else detectedIngredients.

Definition visionInstruction : string :=
  "Analise esta foto de uma geladeira ou despensa e liste todos os ingredientes alimentares que você identifica. Retorne apenas os nomes dos ingredientes separados por vírgula, de forma curta e direta. Não use frases completas.".

(** [captureAndAnalyze], up to its [await].  The result tells whether a
    request is now awaited: the handler has returned otherwise. *)
Definition captureAndAnalyze_request (shot : Shot) : M bool :=
  video <- gets videoRef;;
  canvas <- gets canvasRef;;
  match video, canvas with
  | Some v, Some _ =>
      setIsAnalyzing true;;
      if context2d shot then
        ss <- gets streams;;
        let frame := srcObject v ≫= (λ id, ss !! id) in
        setCanvas (mkCanvas (from_option frameWidth 0%N frame)
                            (from_option frameHeight 0%N frame));;
        let base64Image := split "," (toDataURL shot) !! 1%nat in
        emit (GenerateContent "gemini-3-flash-preview"
                (VisionRequest base64Image "image/jpeg" visionInstruction));;
        ret true
      else ret false
  | _, _ => ret false
  end.

(** [captureAndAnalyze], from its [await] on: the rest of the [try]
    block, the [catch] block and the [finally] block. *)
Definition captureAndAnalyze_settled (p : Settled GenerateContentResponse)
  : M unit :=
  try_finally
    (try_catch
       (response <- await p;;
        let detectedIngredients := or_default (text response) EmptyString in
        when (truthy detectedIngredients)
          (setInput (mergeIngredients detectedIngredients));;
        stopCamera)
       (λ err,
        emit (ConsoleError "Erro na análise da imagem:");;
        emit (Alert "Falha ao analisar a imagem. Tente novamente.")))
    (setIsAnalyzing false).

Definition captureAndAnalyze (shot : Shot) (p : Settled GenerateContentResponse)
  : M unit :=
  awaiting <- captureAndAnalyze_request shot;;
  when awaiting (captureAndAnalyze_settled p).

(** ** The generation cycle *)

Definition systemPrompt (preference : string) : string :=
  "Você é um chef prático do dia a dia. Seu papel é criar UMA receita possível agora usando APENAS os ingredientes informados (considere apenas sal, água e óleo como extras implícitos se necessário)."
  +:+ LF +:+ "    Regras obrigatórias:"
  +:+ LF +:+ "    - Nunca sugira ingredientes que a pessoa não citou."
  +:+ LF +:+ "    - Nunca ofereça mais de UMA receita."
  +:+ LF +:+ "    - Use preparo simples, caseiro e rápido."
  +:+ LF +:+ "    - Se o usuário pedir variação, mude a técnica de preparo (ex: de cozido para frito)."
  +:+ LF +:+ "    - Preferência do usuário: "
  +:+ or_default (Some preference) "Nenhuma" +:+ ".".

Definition recipeContents (input : string) (isVariation : bool) : string :=
  "Ingredientes disponíveis: " +:+ input +:+ ". "
  +:+ (if isVariation then "Dê uma alternativa diferente da anterior."
       else EmptyString).

(** The text of the illustration request for a dish whose name is a
    string.  The request is logged with the value that is interpolated. *)
Definition illustrationPrompt (dish : string) : string :=
  "Foto profissional de comida: " +:+ dish
  +:+ ", estilo minimalista, fundo claro.".

(** [imgResponse.candidates?.[0]?.content?.parts.find(p => p.inlineData)]:
    each [?.] stops at [undefined]; [parts] is read without one, so a
    content without parts throws. *)
Definition findInlinePart (imgResponse : GenerateContentResponse)
  : Completion (option Part) :=
  match candidates imgResponse with
  | None => Normal None
  | Some cs =>
      match cs !! 0%nat with
      | None => Normal None
      | Some c =>
          match content c with
          | None => Normal None
          | Some ct =>
              match parts ct with
              | None => Throw TypeError
              | Some ps => Normal (List.find (λ p, bool_decide (is_Some (inlineData p))) ps)
              end
          end
      end
  end.

(** [generateRecipe(isVariation)], given what its two requests settle to. *)
Definition generateRecipe (isVariation : bool)
    (recipeCall imageCall : Settled GenerateContentResponse) : M unit :=
  input <- gets input;;
  preference <- gets preference;;
  if negb (truthy (trim input)) then ret tt else
  setLoading true;;
  when (negb isVariation) (setVariationCount (λ _, 0));;
  try_finally
    (try_catch
       (emit (GenerateContent "gemini-3-flash-preview"
                (RecipeRequest (recipeContents input isVariation)
                               (systemPrompt preference)));;
        response <- await recipeCall;;
        recipeData <- lift (JSON_parse (or_default (text response) "{}"));;
        recipeData <-
          try_catch
            (dish <- lift (Get recipeData "name");;
             emit (GenerateContent "gemini-2.5-flash-image"
                     (IllustrationRequest dish "1:1"));;
             imgResponse <- await imageCall;;
             part <- lift (findInlinePart imgResponse);;
             match part ≫= inlineData with
             | Some blob =>
                 lift (Put recipeData "imageUrl"
                         (JSString ("data:image/png;base64,"
                                    +:+ interpolate (data blob))))
             | None => ret recipeData
             end)
            (λ e, emit (ConsoleError "Image gen failed");; ret recipeData);;
        setRecipe recipeData;;
        when isVariation (setVariationCount (λ prev, prev + 1)))
       (λ error, emit (ConsoleError "Generation error:")))
    (setLoading false).

(** ** The export formatter

    [getMarkdownRecipe] at the type the source declares for [recipe]. *)
Definition getMarkdownRecipe (recipe : option Recipe) : string :=
  match recipe with
  | None => EmptyString
  | Some recipe =>
      let ingredients :=
        join LF (map (λ ing, "- " +:+ ing) (ingredients recipe)) in
      let instructions :=
        join LF (imap (λ i step, Number_toString (i + 1) +:+ ". " +:+ step)
                      (instructions recipe)) in
      let tipSection :=
        match tip recipe with
        | Some t =>
            if truthy t then LF +:+ LF +:+ "> 💡 **Dica do Chef:** " +:+ t
            else EmptyString
        | None => EmptyString
        end in
      "# 🍳 " +:+ name recipe +:+ LF +:+ LF
      +:+ "⏱ **Tempo total:** " +:+ totalTime recipe +:+ LF +:+ LF
      +:+ "## 🛒 Ingredientes" +:+ LF +:+ ingredients +:+ LF +:+ LF
      +:+ "## 👨‍🍳 Modo de Preparo" +:+ LF +:+ instructions +:+ tipSection
      +:+ LF +:+ LF +:+ "---" +:+ LF +:+ "*Gerado por O Que Tem Aí?*"
  end.

(** ** The buttons

    A disabled button does not call its handler. *)

(** "ESCANEAR GELADEIRA" and the close button of the camera modal are
    [startCamera] and [stopCamera] themselves. *)

(** The shutter button: [disabled={isAnalyzing}]. *)
Definition onClickCapture (shot : Shot) (p : Settled GenerateContentResponse)
  : M unit :=
  busy <- gets isAnalyzing;;
  if busy then ret tt else captureAndAnalyze shot p.

(** "Criar Receita": [disabled={loading || !input.trim()}]. *)
Definition onClickCreate (recipeCall imageCall : Settled GenerateContentResponse)
  : M unit :=
  loading <- gets loading;;
  input <- gets input;;
  if loading || negb (truthy (trim input)) then ret tt
  else generateRecipe false recipeCall imageCall.

(** "Tentar outra ideia": [disabled={loading || variationCount >= 3}]. *)
Definition variationDisabled (st : AppState) : bool :=
  loading st || (3 <=? variationCount st)%nat.

Definition onClickVariation (recipeCall imageCall : Settled GenerateContentResponse)
  : M unit :=
  disabled <- gets variationDisabled;;
  if disabled then ret tt else generateRecipe true recipeCall imageCall.

(** "NOVA BUSCA". *)
Definition onClickNewSearch : M unit :=
  setRecipe JSNull;;
  setInput (λ _, EmptyString);;
  setPreference (λ _, EmptyString).

(** The text area and the preference chips. *)
Definition onChangeInput (value : string) : M unit := setInput (λ _, value).

Definition onClickPreference (pref : string) : M unit :=
  setPreference (λ prev, if String.eqb prev pref then EmptyString else pref).

End App.
Import App.
Local Open Scope js_scope.

(* ================================================================== *)
(** * Vocabulary of the properties                                     *)
(* ================================================================== *)

#[global] Instance ReadyState_eq_dec : EqDecision ReadyState.
Proof. solve_decision. Defined.

(** ** The parser

    A parse of [l] that leaves [rest] is reached with any fuel from twice
    the number of characters consumed. *)
Definition enough {A} (p : nat → list ascii → option (A * list ascii))
    (l : list ascii) (a : A) (rest : list ascii) : Prop :=
  length rest < length l
  ∧ ∀ fuel, 2 * (length l - length rest) ≤ fuel → p fuel l = Some (a, rest).

(** ** The capture session *)

Definition stopped (s : MediaStream) : Prop := Forall (λ t, t = Ended) (getTracks s).

(** The device is released: no stream it has handed out has a live track. *)
Definition released (st : AppState) : Prop := Forall stopped (streams st).

(** The session is in [Idle]: the camera modal is closed, and with it its
    video and canvas are gone. *)
Definition idle (st : AppState) : Prop :=
  isCameraOpen st = false ∧ videoRef st = None ∧ canvasRef st = None.

(** The session is in [Previewing] with stream [sid] on the video. *)
Definition previewing (sid : nat) (st : AppState) : Prop :=
  isCameraOpen st = true
  ∧ videoRef st = Some (mkVideo (Some sid))
  ∧ is_Some (canvasRef st)
  ∧ is_Some (streams st !! sid).

(** Every stream but [sid] is stopped already. *)
Definition others_stopped (sid : nat) (st : AppState) : Prop :=
  ∀ i s, i ≠ sid → streams st !! i = Some s → stopped s.

(** The session has ended: [Idle], with the device released. *)
Definition session_ended (st : AppState) : Prop := idle st ∧ released st.

#[global] Instance stopped_dec s : Decision (stopped s).
Proof. unfold stopped. apply _. Defined.
#[global] Instance released_dec st : Decision (released st).
Proof. unfold released. apply _. Defined.
#[global] Instance idle_dec st : Decision (idle st).
Proof. unfold idle. apply _. Defined.
#[global] Instance session_ended_dec st : Decision (session_ended st).
Proof. unfold session_ended. apply _. Defined.

(** ** Recipes as run-time values *)

Definition asString (v : JSValue) : option string :=
  match v with
  | JSString s => Some s
  | _ => None
  end.

Definition asStringArray (v : JSValue) : option (list string) :=
  match v with
  | JSArray es _ => mapM asString es
  | _ => None
  end.

(** An optional string property: absent, or a string. *)
Definition asOptionalString (v : option JSValue) : option (option string) :=
  match v with
  | None => Some None
  | Some (JSString s) => Some (Some s)
  | Some _ => None
  end.

(** The values that inhabit [interface Recipe]: objects with the four
    required properties at their types, and [tip] and [imageUrl] absent
    or strings. *)
Definition asRecipe (v : JSValue) : option Recipe :=
  match v with
  | JSObject ps =>
      name ← lookup_prop "name" ps ≫= asString;
      ingredients ← lookup_prop "ingredients" ps ≫= asStringArray;
      instructions ← lookup_prop "instructions" ps ≫= asStringArray;
      totalTime ← lookup_prop "totalTime" ps ≫= asString;
      tip ← asOptionalString (lookup_prop "tip" ps);
      imageUrl ← asOptionalString (lookup_prop "imageUrl" ps);
      Some (mkRecipe name ingredients instructions totalTime tip imageUrl)
  | _ => None
  end.

Definition optionalProp (k : string) (v : option string)
  : list (string * JSValue) :=
  match v with
  | Some s => [(k, JSString s)]
  | None => []
  end.

(** The object that [JSON.parse] builds for a recipe written with its
    properties in the order of the schema. *)
Definition toJS (r : Recipe) : JSValue :=
  JSObject
    ([("name", JSString (name r));
      ("ingredients", JSArray (JSString <$> ingredients r) []);
      ("instructions", JSArray (JSString <$> instructions r) []);
      ("totalTime", JSString (totalTime r))]
     ++ optionalProp "tip" (tip r) ++ optionalProp "imageUrl" (imageUrl r)).

(** ** Outcomes of the two requests of a generation cycle *)

(** The text the cycle hands to [JSON.parse]. *)
Definition recipeText (response : GenerateContentResponse) : string :=
  or_default (text response) "{}".

(** The structured call succeeds, as [generateRecipe] sees it: the
    request is fulfilled and [JSON.parse] returns. *)
Definition structuredCallSucceeds (p : Settled GenerateContentResponse) : bool :=
  match p with
  | Fulfilled response =>
      match JSON_parse (recipeText response) with
      | Normal _ => true
      | Throw _ => false
      end
  | Rejected => false
  end.

(** The illustration call fails: the request is rejected, or the response
    has no part with inline data. *)
Definition illustrationFails (p : Settled GenerateContentResponse) : bool :=
  match p with
  | Fulfilled imgResponse =>
      match findInlinePart imgResponse with
      | Normal part => bool_decide (part ≫= inlineData = None)
      | Throw _ => true
      end
  | Rejected => true
  end.

(** ** Data URIs *)

Fixpoint stripPrefix (p s : string) : option string :=
  match p, s with
  | EmptyString, _ => Some s
  | String a p', String b s' => if Ascii.eqb a b then stripPrefix p' s' else None
  | String _ _, EmptyString => None
  end.

(** The media type that a data URI declares: what stands between
    [data:] and the first [;] or [,]. *)
Definition declaredMime (uri : string) : option string :=
  head ← split "," uri !! 0;
  mediatype ← split ";" head !! 0;
  stripPrefix "data:" mediatype.

(** A recipe with its image attached. *)
Definition withImage (r : Recipe) (url : string) : Recipe :=
  mkRecipe (name r) (ingredients r) (instructions r) (totalTime r) (tip r)
           (Some url).

(** ** Counting *)

Definition isShowRecipe (e : Effect) : bool :=
  match e with
  | ShowRecipe _ => true
  | _ => false
  end.

Definition isGenerateContent (e : Effect) : bool :=
  match e with
  | GenerateContent _ _ => true
  | _ => false
  end.

(** How many recipes the page has shown, and how many requests it has
    sent to the model. *)
Definition recipesShown (st : AppState) : nat :=
  length (List.filter isShowRecipe (log st)).

Definition modelCalls (st : AppState) : nat :=
  length (List.filter isGenerateContent (log st)).

(** What the two requests of one click settle to. *)
Definition Click : Type :=
  (Settled GenerateContentResponse * Settled GenerateContentResponse)%type.

(** A run of clicks on "Tentar outra ideia". *)
Definition clickVariations (clicks : list Click) (st : AppState) : AppState :=
  foldl (λ s c, run (onClickVariation c.1 c.2) s) st clicks.

(** ** The layout of the exported text, section by section *)

Definition titleLine (r : Recipe) : string := "# 🍳 " +:+ name r.
Definition timeLine (r : Recipe) : string := "⏱ **Tempo total:** " +:+ totalTime r.
Definition ingredientsHeading : string := "## 🛒 Ingredientes".
Definition instructionsHeading : string := "## 👨‍🍳 Modo de Preparo".
Definition footerLines : list string := [EmptyString; "---"; "*Gerado por O Que Tem Aí?*"].

Definition bullet (ing : string) : string := "- " +:+ ing.

(** Steps numbered from [k] on. *)
Fixpoint numbered (k : nat) (steps : list string) : list string :=
  match steps with
  | [] => []
  | step :: rest => (Number_toString k +:+ ". " +:+ step) :: numbered (S k) rest
  end.

(** A section with no item still takes one, empty, line. *)
Definition sectionBody (items : list string) : list string :=
  match items with
  | [] => [EmptyString]
  | _ :: _ => items
  end.

(** The tip block: a blank line and the tip, for a tip that is present
    and not the empty string. *)
Definition tipBlock (tip : option string) : list string :=
  match tip with
  | Some (String c t) => [EmptyString; "> 💡 **Dica do Chef:** " +:+ String c t]
  | Some EmptyString | None => []
  end.


(** ** The page as a transition system

    What the user can do to the page, with what the environment answers.
    Each event runs its handler to the end. *)
Inductive Event : Type :=
| ChangeInput (value : string)
| ClickPreference (pref : string)
| ClickCreate (recipeCall imageCall : Settled GenerateContentResponse)
| ClickVariation (recipeCall imageCall : Settled GenerateContentResponse)
| ClickNewSearch
| ClickScan (camera : Settled MediaStream)
| ClickClose
| ClickCapture (shot : Shot) (analysis : Settled GenerateContentResponse).

(** The handler of each event. *)
Definition handler (e : Event) : M unit :=
  match e with
  | ChangeInput value => onChangeInput value
  | ClickPreference pref => onClickPreference pref
  | ClickCreate rc ic => onClickCreate rc ic
  | ClickVariation rc ic => onClickVariation rc ic
  | ClickNewSearch => onClickNewSearch
  | ClickScan camera => startCamera camera
  | ClickClose => stopCamera
  | ClickCapture shot analysis => onClickCapture shot analysis
  end.

(** The states the page can be in. *)
Inductive reachable : AppState → Prop :=
| reachable_initial : reachable initial
| reachable_step e st : reachable st → reachable (run (handler e) st).

(** Between two events no generation is in flight, the counter is within
    its bound, and the camera elements exist only under an open modal. *)
Definition settled (st : AppState) : Prop :=
  variationCount st ≤ 3
  ∧ loading st = false
  ∧ (isCameraOpen st = false → videoRef st = None ∧ canvasRef st = None).

(** ** The value a cycle shows *)

(** What the inner [try] block of [generateRecipe] leaves in
    [recipeData]: the parsed value, with the image attached when every
    step up to the assignment went through. *)
Definition illustrated (v : JSValue) (ic : Settled GenerateContentResponse)
  : JSValue :=
  match Get v "name", ic with
  | Normal _, Fulfilled imgResponse =>
      match findInlinePart imgResponse with
      | Normal part =>
          match part ≫= inlineData with
          | Some blob =>
              match Put v "imageUrl"
                      (JSString ("data:image/png;base64,"
                                 +:+ interpolate (data blob))) with
              | Normal v' => v'
              | Throw _ => v
              end
          | None => v
          end
      | Throw _ => v
      end
  | _, _ => v
  end.

(* ================================================================== *)
(** * Scenarios                                                        *)
(* ================================================================== *)

(** ** A camera and a shot *)

Definition demoCamera : MediaStream := mkStream [Live; Live] 1280 720.
Definition demoShot : Shot := mkShot true "data:image/jpeg;base64,/9j/4AAQSkZJRg==".

(** The camera is previewing over a field that holds [field]. *)
Definition demoPreview (field : string) : AppState :=
  run (startCamera (Fulfilled demoCamera)) (run (onChangeInput field) initial).

(** ** A kitchen to run the page in *)

Definition quoted (s : string) : string := dquote +:+ s +:+ dquote.

Definition friedRice : Recipe :=
  mkRecipe "Fried Rice" ["rice"; "egg"] ["Heat oil"; "Fry egg"; "Mix rice"]
           "15 min" (Some "Use day-old rice") None.

Definition friedRiceText : string :=
  "{" +:+ quoted "name" +:+ ": " +:+ quoted "Fried Rice" +:+ ", "
  +:+ quoted "ingredients" +:+ ": [" +:+ quoted "rice" +:+ ", "
  +:+ quoted "egg" +:+ "], "
  +:+ quoted "instructions" +:+ ": [" +:+ quoted "Heat oil" +:+ ", "
  +:+ quoted "Fry egg" +:+ ", " +:+ quoted "Mix rice" +:+ "], "
  +:+ quoted "totalTime" +:+ ": " +:+ quoted "15 min" +:+ ", "
  +:+ quoted "tip" +:+ ": " +:+ quoted "Use day-old rice" +:+ "}".

Definition friedRiceCall : Settled GenerateContentResponse :=
  Fulfilled (mkResponse None (Some friedRiceText)).

Definition emptyBodyCall : Settled GenerateContentResponse :=
  Fulfilled (mkResponse None None).

Definition demoClick : Click := (friedRiceCall, Rejected).

(** The field holds two ingredients and nothing has been generated. *)
Definition demoKitchen : AppState := run (onChangeInput "rice, egg") initial.

(** One recipe is on the page. *)
Definition demoServed : AppState :=
  run (onClickCreate friedRiceCall Rejected) demoKitchen.

(** The recipe and its three variations have been shown. *)
Definition demoExhausted : AppState :=
  clickVariations [demoClick; demoClick; demoClick] demoServed.

(** The same recipe without its tip. *)
Definition plainRice : Recipe :=
  mkRecipe "Fried Rice" ["rice"; "egg"] ["Heat oil"; "Fry egg"; "Mix rice"]
           "15 min" None None.

(** An illustration response with one part of inline data, and one with
    a text part only. *)
Definition illustration (blob : Blob) : Settled GenerateContentResponse :=
  Fulfilled
    (mkResponse (Some [mkCandidate (Some (mkContent (Some [mkPart (Some blob) None])))])
                None).

Definition declinedIllustration : Settled GenerateContentResponse :=
  Fulfilled
    (mkResponse
       (Some [mkCandidate (Some (mkContent (Some [mkPart None (Some "Sorry.")])))])
       None).

Definition jpegBlob : Blob := mkBlob (Some "/9j/4AAQSkZJRg==") (Some "image/jpeg").

(* ================================================================== *)
(** * The page step by step, and the browser around it              *)
(* ================================================================== *)

(** ** Steps of the page

    The events of the page, with the two camera handlers also in two
    halves, one up to the [await] and one from it on, so that other
    handlers can run in between. *)
Inductive Step : Type :=
| Atomic (e : Event)
| ScanRequest
| ScanSettled (camera : Settled MediaStream)
| CaptureRequest (shot : Shot)
| CaptureSettled (analysis : Settled GenerateContentResponse).

Definition stepHandler (s : Step) : M unit :=
  match s with
  | Atomic e => handler e
  | ScanRequest => startCamera_request
  | ScanSettled camera => startCamera_settled camera
  | CaptureRequest shot =>
      busy <- gets isAnalyzing;;
      if busy then ret tt
      else (awaiting <- captureAndAnalyze_request shot;; ret tt)
  | CaptureSettled analysis => captureAndAnalyze_settled analysis
  end.

Definition runSteps (steps : list Step) (st : AppState) : AppState :=
  foldl (λ s x, run (stepHandler x) s) st steps.

Definition runEvents (events : list Event) (st : AppState) : AppState :=
  foldl (λ s e, run (handler e) s) st events.

(** A track is as it was, or has been stopped. *)
Definition aged (t t' : ReadyState) : Prop := t' = t ∨ t' = Ended.

(** A stream is the same stream, some of its tracks stopped. *)
Definition agedStream (s s' : MediaStream) : Prop :=
  frameWidth s' = frameWidth s
  ∧ frameHeight s' = frameHeight s
  ∧ Forall2 aged (getTracks s) (getTracks s').

(** The video element of the page does not hold stream [i]. *)
Definition offVideo (i : nat) (st : AppState) : Prop :=
  videoRef st ≠ Some (mkVideo (Some i)).

(** The cells of the page and the device fit together: the video and the
    canvas exist exactly under an open modal, the video holds a stream
    that the device has handed out, no cycle is in flight and the
    counter is within its bound. *)
Definition coherent (st : AppState) : Prop :=
  (isCameraOpen st = true → is_Some (videoRef st) ∧ is_Some (canvasRef st))
  ∧ (isCameraOpen st = false → videoRef st = None ∧ canvasRef st = None)
  ∧ (∀ i, videoRef st = Some (mkVideo (Some i)) → i < length (streams st))
  ∧ loading st = false
  ∧ variationCount st ≤ 3.

(** ** A scan: the camera is opened, a frame is analysed *)
Record Scan : Type := mkScan {
  scanCamera : MediaStream;
  scanShot : Shot;
  scanText : option string        (* [response.text] *)
}.

Definition scan (s : Scan) (st : AppState) : AppState :=
  run (captureAndAnalyze (scanShot s) (Fulfilled (mkResponse None (scanText s))))
      (run (startCamera (Fulfilled (scanCamera s))) st).

Definition scans (l : list Scan) (st : AppState) : AppState :=
  foldl (λ st s, scan s st) st l.

(** The pieces of text that count: the ones that are not empty. *)
Definition pieces (l : list string) : list string := List.filter truthy l.

(** ** The preference chips *)
Definition chips : list string :=
  ["Lanche Rápido"; "Saudável"; "Vegano"; "Low Carb"].

(** The events the rendered page can produce: a chip is one of the four. *)
Definition offered (e : Event) : Prop :=
  match e with
  | ClickPreference pref => pref ∈ chips
  | _ => True
  end.

(** ** White space and visible characters of the ingredient field *)
Definition isAsciiSpace (c : ascii) : bool :=
  match code c with
  | (9 | 10 | 11 | 12 | 13 | 32)%N => true
  | _ => false
  end.

Definition isVisibleAscii (c : ascii) : bool :=
  ((33 <=? code c) && (code c <=? 126))%N.

(** ** The effects a cycle adds to the log *)
Definition recipeRequest (st : AppState) (isVariation : bool) : Effect :=
  GenerateContent "gemini-3-flash-preview"
    (RecipeRequest (recipeContents (input st) isVariation)
                   (systemPrompt (preference st))).

Definition illustrationRequest (dish : option JSValue) : Effect :=
  GenerateContent "gemini-2.5-flash-image" (IllustrationRequest dish "1:1").

Definition isAlert (e : Effect) : bool :=
  match e with
  | Alert _ => true
  | _ => false
  end.

(** A value that is neither an object nor an array. *)
Definition isPrimitive (v : JSValue) : bool :=
  match v with
  | JSObject _ | JSArray _ _ => false
  | _ => true
  end.

(** What one step can do to the device and to the video element: leave
    the streams alone; add a stream, on the video or on nothing; or stop
    the tracks of the stream that is on the video and drop the video. *)
Definition cameraMove (st st' : AppState) : Prop :=
  (streams st' = streams st
   ∧ (videoRef st' = videoRef st ∨ videoRef st' = None
      ∨ videoRef st' = Some (mkVideo None)))
  ∨ (∃ cam, streams st' = streams st ++ [cam]
            ∧ (videoRef st' = None
               ∨ videoRef st' = Some (mkVideo (Some (length (streams st))))))
  ∨ (∃ i, videoRef st = Some (mkVideo (Some i))
          ∧ streams st' = alter stopTracks i (streams st)
          ∧ videoRef st' = None).

(** ** Data URLs of the canvas *)

(** The text has no comma. *)
Definition commaFree (s : string) : Prop :=
  Forall (λ c, c ≠ ","%char) (chars s).

(** ** The trace of the illustration step *)

Definition imageGenFailed : Effect := ConsoleError "Image gen failed".

(** What the inner [try] block of [generateRecipe] adds to the log,
    newest first: the illustration request, when the name could be read,
    and the console error of the inner [catch], when a step threw. *)
Definition illustrationTrace (v : JSValue)
    (ic : Settled GenerateContentResponse) : list Effect :=
  match Get v "name" with
  | Throw _ => [imageGenFailed]
  | Normal dish =>
      match ic with
      | Rejected => [imageGenFailed]
      | Fulfilled imgResponse =>
          match findInlinePart imgResponse with
          | Throw _ => [imageGenFailed]
          | Normal part =>
              match part ≫= inlineData with
              | Some blob =>
                  match Put v "imageUrl"
                          (JSString ("data:image/png;base64,"
                                     +:+ interpolate (data blob))) with
                  | Normal _ => []
                  | Throw _ => [imageGenFailed]
                  end
              | None => []
              end
          end
      end ++ [illustrationRequest dish]
  end.

Definition alerts (st : AppState) : list Effect := List.filter isAlert (log st).

(** The steps the rendered page can take. *)
Definition offeredStep (x : Step) : Prop :=
  match x with
  | Atomic e => offered e
  | _ => True
  end.

(** The text a scan detects: [response.text], or the empty text. *)
Definition scanned (s : Scan) : string := or_default (scanText s) EmptyString.

Definition demoScan (text : option string) : Scan :=
  mkScan demoCamera demoShot text.

(** ** Copying, sharing and printing

    The browser around the page: whether it has a clipboard and a share
    sheet, what was written to the clipboard and what [navigator.share]
    was called with (newest first), the timers that [copyAsMarkdown] has
    set and that have not fired yet, and the calls of [window.print]. *)
Record Browser : Type := mkBrowser {
  page : AppState;
  hasClipboard : bool;
  hasShare : bool;
  clipboard : list string;
  shared : list (string * string);
  timers : nat;
  printed : nat
}.

Definition setCopied (b : bool) : M unit :=
  modify (λ st, mkApp (input st) (preference st) (recipe st) (loading st)
    (isCameraOpen st) (isAnalyzing st) (variationCount st) b
    (videoRef st) (canvasRef st) (streams st) (log st)).

(** What [getMarkdownRecipe()] returns for the value in the [recipe]
    cell, when that value is [null] or a recipe.  For any other value
    the function reads properties that are missing or of another type;
    that is left out: [None]. *)
Definition exportText (st : AppState) : option string :=
  match recipe st with
  | JSNull => Some (getMarkdownRecipe None)
  | v => (λ r, getMarkdownRecipe (Some r)) <$> asRecipe v
  end.

(** [`Receita: ${recipe?.name}`], on the same values. *)
Definition shareTitle (st : AppState) : option string :=
  match recipe st with
  | JSNull => Some ("Receita: " +:+ interpolate None)
  | v => (λ r, "Receita: " +:+ interpolate (Some (name r))) <$> asRecipe v
  end.

(** [copyAsMarkdown], given what the promise of [writeText] settles to,
    which the handler does not wait for.  Without [navigator.clipboard]
    the call of [writeText] throws and the handler stops there. *)
Definition copyAsMarkdown (written : Settled unit) (b : Browser)
  : option Browser :=
  text ← exportText (page b);
  Some (if hasClipboard b then
          mkBrowser (run (setCopied true) (page b)) (hasClipboard b) (hasShare b)
                    (match written with
                     | Fulfilled _ => text :: clipboard b
                     | Rejected => clipboard b
                     end)
                    (shared b) (S (timers b)) (printed b)
        else b).


(** [shareRecipe], given what [navigator.share] settles to. *)
Definition shareRecipe (outcome written : Settled unit) (b : Browser)
  : option Browser :=
  text ← exportText (page b);
  if hasShare b then
    title ← shareTitle (page b);
    Some (mkBrowser
            (match outcome with
             | Fulfilled _ => page b
             | Rejected => run (emit (ConsoleError "Error sharing")) (page b)
             end)
            (hasClipboard b) (hasShare b) (clipboard b)
            ((title, text) :: shared b) (timers b) (printed b))
  else copyAsMarkdown written b.


(** The browser with the page in another state. *)
Definition withPage (st : AppState) (b : Browser) : Browser :=
  mkBrowser st (hasClipboard b) (hasShare b) (clipboard b) (shared b)
            (timers b) (printed b).




(** A browser that has just loaded the page. *)
Definition freshBrowser (clip share : bool) : Browser :=
  mkBrowser initial clip share [] [] 0 0.


(* ================================================================== *)
(** * Proof tools                                                      *)
(* ================================================================== *)

(** Runs a handler on a state whose cells are known. *)
Ltac js_unfold :=
  cbv [run bind ret gets modify lift throw await try_catch try_finally when
       emit setInput setPreference setRecipe setLoading setIsCameraOpen
       setIsAnalyzing setVariationCount setVideo setCanvas setStreams mounted
       startCamera startCamera_request startCamera_settled awaitUserMedia
       stopCamera captureAndAnalyze captureAndAnalyze_request
       captureAndAnalyze_settled onClickCapture onClickCreate
       onClickVariation onClickNewSearch onChangeInput onClickPreference
       generateRecipe variationDisabled].

Ltac destruct_state st :=
  let i := fresh "inp" in
  let p := fresh "pref" in
  let r := fresh "rcp" in
  let l := fresh "ld" in
  let o := fresh "opn" in
  let a := fresh "anl" in
  let n := fresh "cnt" in
  let c := fresh "cpd" in
  let v := fresh "vid" in
  let k := fresh "cnv" in
  let s := fresh "strs" in
  let g := fresh "lg" in
  destruct st as [i p r l o a n c v k s g]; simpl in *.

(** The same, for a step of the page. *)
Ltac js_unfold_steps :=
  cbv [stepHandler handler runSteps runEvents]; js_unfold.

(** Splits on the modal being open and names the elements it then has. *)
Ltac open_or_closed Hopen Hclosed opn :=
  destruct opn;
  [destruct (Hopen eq_refl) as [[? ->] [? ->]]
  |destruct (Hclosed eq_refl) as [-> ->]].

(** Closes the parts of [coherent] after a step. *)
Ltac coherent_finish :=
  repeat split; simpl; eauto; try done;
  try (intros ? [= <-]; rewrite length_app; simpl; lia).

(** The 256 values of a byte. *)
Ltac bytes c := destruct c as [[] [] [] [] [] [] [] []].

(** Splits on what the handler at hand branches on. *)
Ltac split_branches :=
  repeat (match goal with
          | |- context [match ?x with _ => _ end] => is_var x; destruct x
          | |- context [if ?x then _ else _] => is_var x; destruct x
          | |- context [context2d ?s] => destruct (context2d s)
          | |- context [truthy ?s] => destruct (truthy s)
          end; simpl).

(* ================================================================== *)
(** * [JSON.parse] and its fuel                                        *)
(* ================================================================== *)

Section ParserFuel.

Lemma skipWS_length l : length (skipWS l) ≤ length l.
Proof. induction l as [|c l IH]; simpl; [done|]. destruct (isJSONWhiteSpace c); simpl; lia. Qed.

Lemma expect_length c l r : expect c l = Some r → length r < length l.
Proof.
  unfold expect. pose proof (skipWS_length l) as Hl.
  destruct (skipWS l) as [|d r']; [done|]. simpl in Hl.
  destruct (Ascii.eqb c d); [|done]. intros [= <-]. lia.
Qed.

Lemma takeDigits_length l ds rest :
  takeDigits l = (ds, rest) → length l = length ds + length rest.
Proof.
  revert ds rest. induction l as [|c l IH]; intros ds rest; simpl.
  - by intros [= <- <-].
  - destruct (isDigit c).
    + destruct (takeDigits l) as [ds' rest'] eqn:E. intros [= <- <-].
      simpl. rewrite (IH ds' rest' eq_refl). lia.
    + intros [= <- <-]. simpl. lia.
Qed.

Lemma lexDigits_length l ds rest :
  lexDigits l = Some (ds, rest) → length rest < length l.
Proof.
  unfold lexDigits. destruct (takeDigits l) as [ds' rest'] eqn:E.
  apply takeDigits_length in E. destruct ds'; [done|].
  intros [= <- <-]. simpl in E. lia.
Qed.

Lemma lexSign_length signs l sg r :
  lexSign signs l = (sg, r) → length r ≤ length l.
Proof.
  unfold lexSign. destruct l as [|c l]; [by intros [= <- <-]|].
  destruct (existsb _ _); intros [= <- <-]; simpl; lia.
Qed.

Lemma lexInt_length l ds r : lexInt l = Some (ds, r) → length r < length l.
Proof.
  unfold lexInt. destruct l as [|c l]; [done|].
  destruct (Ascii.eqb c "0"); [intros [= <- <-]; simpl; lia|].
  destruct (isDigit c); [|done].
  destruct (takeDigits l) as [ds' rest'] eqn:E. apply takeDigits_length in E.
  intros [= <- <-]. simpl. lia.
Qed.

Lemma lexFrac_length l ds r : lexFrac l = Some (ds, r) → length r ≤ length l.
Proof.
  unfold lexFrac. destruct l as [|c l]; [by intros [= <- <-]|].
  destruct (Ascii.eqb c "."); [|by intros [= <- <-]].
  destruct (lexDigits l) as [[ds' rest']|] eqn:E; simpl; [|done].
  apply lexDigits_length in E. intros [= <- <-]. simpl. lia.
Qed.

Lemma lexExp_length l ds r : lexExp l = Some (ds, r) → length r ≤ length l.
Proof.
  unfold lexExp. destruct l as [|c l]; [by intros [= <- <-]|].
  destruct (_ || _); [|by intros [= <- <-]].
  destruct (lexSign _ l) as [sg r1] eqn:Es. apply lexSign_length in Es.
  destruct (lexDigits r1) as [[ds' rest']|] eqn:E; simpl; [|done].
  apply lexDigits_length in E. intros [= <- <-]. simpl. lia.
Qed.

Lemma lexNumber_length l n r : lexNumber l = Some (n, r) → length r < length l.
Proof.
  unfold lexNumber. destruct (lexSign _ l) as [sg l1] eqn:Es.
  apply lexSign_length in Es.
  destruct (lexInt l1) as [[int l2]|] eqn:Ei; simpl; [|done].
  apply lexInt_length in Ei.
  destruct (lexFrac l2) as [[frac l3]|] eqn:Ef; simpl; [|done].
  apply lexFrac_length in Ef.
  destruct (lexExp l3) as [[exp l4]|] eqn:Ee; simpl; [|done].
  apply lexExp_length in Ee. intros [= <- <-]. lia.
Qed.

Lemma dropWord_length w l r :
  dropWord w l = Some r → length l = length w + length r.
Proof.
  revert l. induction w as [|a w IH]; intros l; simpl.
  - by intros [= <-].
  - destruct l as [|b l]; [done|]. destruct (Ascii.eqb a b); [|done].
    intros H. simpl. by rewrite (IH l H).
Qed.

Lemma lexScalar_length l v r : lexScalar l = Some (v, r) → length r < length l.
Proof.
  unfold lexScalar.
  destruct (dropWord (chars "true") l) as [r1|] eqn:E1.
  { apply dropWord_length in E1. intros [= <- <-]. simpl in E1. lia. }
  destruct (dropWord (chars "false") l) as [r2|] eqn:E2.
  { apply dropWord_length in E2. intros [= <- <-]. simpl in E2. lia. }
  destruct (dropWord (chars "null") l) as [r3|] eqn:E3.
  { apply dropWord_length in E3. intros [= <- <-]. simpl in E3. lia. }
  destruct (lexNumber l) as [[n r4]|] eqn:E4; simpl; [|done].
  apply lexNumber_length in E4. by intros [= <- <-].
Qed.

Lemma lexString_length l items r :
  lexString l = Some (items, r) → length r < length l.
Proof.
  remember (length l) as n eqn:Hn. revert l items r Hn.
  induction n as [n IH] using lt_wf_ind. intros l items r -> H.
  assert (Hrec : ∀ l' items' r', length l' < length l →
                   lexString l' = Some (items', r') → length r' < length l')
    by (intros l' items' r' Hlt; by apply (IH (length l'))).
  clear IH. destruct l as [|c l]; [done|]. simpl in H, Hrec.
  destruct (Ascii.eqb c "034"); [injection H as <- <-; simpl; lia|].
  destruct (Ascii.eqb c "\").
  - destruct l as [|e r1]; [done|].
    destruct (simpleEscape e).
    + destruct (lexString r1) as [[items' rest']|] eqn:E; simpl in H; [|done].
      injection H as <- <-. apply Hrec in E; simpl in *; lia.
    + destruct (Ascii.eqb e "u"); [|done].
      destruct r1 as [|h1 [|h2 [|h3 [|h4 r2]]]]; try done.
      destruct (hex4 h1 h2 h3 h4); simpl in H; [|done].
      destruct (lexString r2) as [[items' rest']|] eqn:E; simpl in H; [|done].
      injection H as <- <-. apply Hrec in E; simpl in *; lia.
  - destruct (code c <? 32)%N; [done|].
    destruct (lexString l) as [[items' rest']|] eqn:E; simpl in H; [|done].
    injection H as <- <-. apply Hrec in E; simpl in *; lia.
Qed.

Lemma lexStringValue_length l s r :
  lexStringValue l = Some (s, r) → length r < length l.
Proof.
  unfold lexStringValue.
  destruct (lexString l) as [[items rest]|] eqn:E; simpl; [|done].
  apply lexString_length in E. by intros [= <- <-].
Qed.

(** The step of each parser, with the lexers kept folded. *)
Local Arguments expect : simpl never.
Local Arguments lexStringValue : simpl never.
Local Arguments lexScalar : simpl never.
Local Arguments skipWS : simpl never.

Lemma parse_fuel (fuel : nat) :
  (∀ l v rest, parseValue fuel l = Some (v, rest) → enough parseValue l v rest)
  ∧ (∀ l ms rest, parseMembers fuel l = Some (ms, rest) → enough parseMembers l ms rest)
  ∧ (∀ l es rest, parseElements fuel l = Some (es, rest) → enough parseElements l es rest).
Proof.
  induction fuel as [|fuel (IHv & IHm & IHe)]; [repeat split; done|].
  split; [|split].
  - intros l v rest H. simpl in H.
    destruct (expect "{" l) as [r|] eqn:E1.
    { pose proof (expect_length _ _ _ E1) as L1.
      destruct (expect "}" r) as [r'|] eqn:E2.
      - injection H as <- <-. pose proof (expect_length _ _ _ E2) as L2.
        split; [lia|]. intros [|f] Hf; [lia|]. simpl. by rewrite E1, E2.
      - destruct (parseMembers fuel r) as [[ms rest']|] eqn:E3; simpl in H; [|done].
        injection H as <- <-. destruct (IHm _ _ _ E3) as [L3 F3].
        split; [lia|]. intros [|f] Hf; [lia|]. simpl.
        rewrite E1, E2, (F3 f) by lia. done. }
    destruct (expect "[" l) as [r|] eqn:E4.
    { pose proof (expect_length _ _ _ E4) as L4.
      destruct (expect "]" r) as [r'|] eqn:E5.
      - injection H as <- <-. pose proof (expect_length _ _ _ E5) as L5.
        split; [lia|]. intros [|f] Hf; [lia|]. simpl. by rewrite E1, E4, E5.
      - destruct (parseElements fuel r) as [[es rest']|] eqn:E6; simpl in H; [|done].
        injection H as <- <-. destruct (IHe _ _ _ E6) as [L6 F6].
        split; [lia|]. intros [|f] Hf; [lia|]. simpl.
        rewrite E1, E4, E5, (F6 f) by lia. done. }
    destruct (expect "034" l) as [r|] eqn:E7.
    { pose proof (expect_length _ _ _ E7) as L7.
      destruct (lexStringValue r) as [[s rest']|] eqn:E8; simpl in H; [|done].
      injection H as <- <-. pose proof (lexStringValue_length _ _ _ E8) as L8.
      split; [lia|]. intros [|f] Hf; [lia|]. simpl.
      rewrite E1, E4, E7, E8. done. }
    pose proof (lexScalar_length _ _ _ H) as L9.
    pose proof (skipWS_length l) as L0.
    split; [lia|]. intros [|f] Hf; [lia|]. simpl. by rewrite E1, E4, E7.
  - intros l ms rest H. simpl in H.
    destruct (expect "034" l) as [r|] eqn:E1; simpl in H; [|done].
    pose proof (expect_length _ _ _ E1) as L1.
    destruct (lexStringValue r) as [[k r1]|] eqn:E2; simpl in H; [|done].
    pose proof (lexStringValue_length _ _ _ E2) as L2.
    destruct (expect ":" r1) as [r2|] eqn:E3; simpl in H; [|done].
    pose proof (expect_length _ _ _ E3) as L3.
    destruct (parseValue fuel r2) as [[v r3]|] eqn:E4; simpl in H; [|done].
    destruct (IHv _ _ _ E4) as [L4 F4].
    destruct (expect "," r3) as [r4|] eqn:E5.
    + pose proof (expect_length _ _ _ E5) as L5.
      destruct (parseMembers fuel r4) as [[ms' rest']|] eqn:E6; simpl in H; [|done].
      injection H as <- <-. destruct (IHm _ _ _ E6) as [L6 F6].
      split; [lia|]. intros [|f] Hf; [lia|]. simpl.
      rewrite E1. simpl. rewrite E2. simpl. rewrite E3. simpl.
      rewrite (F4 f) by lia. simpl. rewrite E5, (F6 f) by lia. done.
    + destruct (expect "}" r3) as [r4|] eqn:E6; simpl in H; [|done].
      injection H as <- <-. pose proof (expect_length _ _ _ E6) as L6.
      split; [lia|]. intros [|f] Hf; [lia|]. simpl.
      rewrite E1. simpl. rewrite E2. simpl. rewrite E3. simpl.
      rewrite (F4 f) by lia. simpl. rewrite E5, E6. done.
  - intros l es rest H. simpl in H.
    destruct (parseValue fuel l) as [[v r1]|] eqn:E1; simpl in H; [|done].
    destruct (IHv _ _ _ E1) as [L1 F1].
    destruct (expect "," r1) as [r2|] eqn:E2.
    + pose proof (expect_length _ _ _ E2) as L2.
      destruct (parseElements fuel r2) as [[es' rest']|] eqn:E3; simpl in H; [|done].
      injection H as <- <-. destruct (IHe _ _ _ E3) as [L3 F3].
      split; [lia|]. intros [|f] Hf; [lia|]. simpl.
      rewrite (F1 f) by lia. simpl. rewrite E2, (F3 f) by lia. done.
    + destruct (expect "]" r1) as [r2|] eqn:E3; simpl in H; [|done].
      injection H as <- <-. pose proof (expect_length _ _ _ E3) as L3.
      split; [lia|]. intros [|f] Hf; [lia|]. simpl.
      rewrite (F1 f) by lia. simpl. rewrite E2, E3. done.
Qed.

(** [JSON.parse] does not depend on its fuel: a parse that any amount of
    fuel gives is the parse it returns. *)
Theorem JSON_parse_fuel (text : string) (fuel : nat) (v : JSValue)
    (rest : list ascii) :
  parseValue fuel (chars text) = Some (v, rest) →
  JSON_parse text
  = match skipWS rest with
    | [] => Normal v
    | _ :: _ => Throw SyntaxError
    end.
Proof.
  intros H. destruct (parse_fuel fuel) as (Hv & _).
  destruct (Hv _ _ _ H) as [_ Hf]. unfold JSON_parse.
  rewrite Hf by lia. reflexivity.
Qed.

End ParserFuel.

(* ================================================================== *)
(** * The capture session                                              *)
(* ================================================================== *)

Lemma stopTracks_stopped (s : MediaStream) : stopped (stopTracks s).
Proof.
  unfold stopped, stopTracks; simpl. apply Forall_fmap, Forall_true. done.
Qed.

(** Stopping the tracks of one stream releases the device when the other
    streams were stopped before. *)
Lemma alter_stopTracks_released (ss : list MediaStream) (sid : nat) :
  (∀ i s, i ≠ sid → ss !! i = Some s → stopped s) →
  Forall stopped (alter stopTracks sid ss).
Proof.
  intros Hoth. apply Forall_lookup. intros i s Hi.
  destruct (decide (i = sid)) as [->|Hne].
  - rewrite list_lookup_alter_eq in Hi.
    destruct (ss !! sid) as [s0|]; simpl in Hi; [|done].
    injection Hi as <-. apply stopTracks_stopped.
  - rewrite list_lookup_alter_ne in Hi by done. eauto.
Qed.

Lemma released_others_stopped (ss : list MediaStream) (cam : MediaStream) :
  Forall stopped ss →
  ∀ i s, i ≠ length ss → (ss ++ [cam]) !! i = Some s → stopped s.
Proof.
  intros Hrel i s Hne Hi.
  apply lookup_app_Some in Hi as [Hi|[Hge Hi]].
  - eapply Forall_lookup_1; eauto.
  - apply list_lookup_singleton_Some in Hi as [Hz _]. lia.
Qed.

(** The close button ends a previewing session. *)
Lemma stopCamera_previewing (sid : nat) (st : AppState) :
  previewing sid st → others_stopped sid st →
  session_ended (run stopCamera st).
Proof.
  intros (Ho & Hv & Hc & Hs) Hoth.
  destruct_state st. subst. js_unfold. simpl.
  split; [done|]. apply alter_stopTracks_released, Hoth.
Qed.

(** A fulfilled vision request, on a previewing session: the merge when
    the text is not empty, then [stopCamera]. *)
Lemma captureAndAnalyze_fulfilled (sid : nat) (st : AppState) (shot : Shot)
    (response : GenerateContentResponse) :
  previewing sid st → context2d shot = true →
  let detected := or_default (text response) EmptyString in
  let st' := run (captureAndAnalyze shot (Fulfilled response)) st in
  input st' = (if truthy detected then mergeIngredients detected (input st)
               else input st)
  ∧ isAnalyzing st' = false
  ∧ idle st'
  ∧ streams st' = alter stopTracks sid (streams st).
Proof.
  intros (Ho & Hv & [cv Hc] & Hs) Hctx.
  destruct_state st. subst. js_unfold. simpl. rewrite Hctx. simpl.
  destruct (truthy (or_default (text response) EmptyString)); simpl; done.
Qed.




(** The tracks too are still live there. *)
Lemma capture_session_rejected_analysis_not_released :
  ¬ released
      (run (captureAndAnalyze demoShot Rejected)
           (run (startCamera (Fulfilled demoCamera)) initial)).
Proof.
  vm_compute. intros H. inversion H as [|? ? Hs]. inversion Hs as [|? ? Hl].
  discriminate Hl.
Qed.

(** A close button pressed while the camera is being acquired closes the
    modal; the stream that arrives afterwards finds no video element and
    keeps its tracks live. *)
Lemma late_stream_stays_live :
  let st := run (startCamera_settled (Fulfilled demoCamera))
                (run stopCamera (run startCamera_request initial)) in
  idle st ∧ streams st = [demoCamera].
Proof. vm_compute. auto. Qed.

(* ================================================================== *)
(** * The ingredient extractor                                         *)
(* ================================================================== *)

Lemma truthy_false (s : string) : truthy s = false ↔ s = EmptyString.
Proof. destruct s; simpl; split; congruence. Qed.

Lemma truthy_true (s : string) : truthy s = true ↔ s ≠ EmptyString.
Proof. destruct s; simpl; split; congruence. Qed.

Lemma mergeIngredients_nonempty (p d : string) :
  p ≠ EmptyString → mergeIngredients d p = p +:+ ", " +:+ d.
Proof. intros Hp. unfold mergeIngredients. apply truthy_true in Hp. by rewrite Hp. Qed.

Lemma mergeIngredients_empty (d : string) : mergeIngredients d EmptyString = d.
Proof. reflexivity. Qed.

Lemma demoPreview_previewing (field : string) : previewing 0 (demoPreview field).
Proof. repeat split; vm_compute; eauto. Qed.

Lemma demoPreview_others_stopped (field : string) : others_stopped 0 (demoPreview field).
Proof. intros [|i] s Hi Hs; [done|]. vm_compute in Hs. destruct i; discriminate Hs. Qed.

(** C6.  The updater that merges a detection [d] into the field [p]
    gives [p], a comma and a space, and [d] when [p] is not empty, and
    [d] itself when [p] is empty, whatever [d] repeats of [p].  A capture
    whose analysis returns a non-empty text [d] applies that updater to
    the ingredient field. *)
Theorem merge_policy (p d : string) :
  (p ≠ EmptyString → mergeIngredients d p = p +:+ ", " +:+ d)
  ∧ (p = EmptyString → mergeIngredients d p = d)
  ∧ ∀ sid st shot response,
      previewing sid st → context2d shot = true →
      input st = p → text response = Some d → d ≠ EmptyString →
      let field := input (run (captureAndAnalyze shot (Fulfilled response)) st) in
      (p ≠ EmptyString → field = p +:+ ", " +:+ d)
      ∧ (p = EmptyString → field = d).
Proof.
  split; [apply mergeIngredients_nonempty|].
  split; [intros ->; apply mergeIngredients_empty|].
  intros sid st shot response Hprev Hctx Hin Htext Hd. simpl.
  destruct (captureAndAnalyze_fulfilled sid st shot response Hprev Hctx) as (Hfield & _).
  rewrite Hfield, Htext, Hin. simpl.
  apply truthy_true in Hd. rewrite Hd. simpl. rewrite Hd.
  split; [apply mergeIngredients_nonempty|intros ->; apply mergeIngredients_empty].
Qed.

Lemma merge_policy_witness :
  input (run (captureAndAnalyze demoShot
                (Fulfilled (mkResponse None (Some "tomato, onion"))))
             (demoPreview "egg, rice"))
  = "egg, rice, tomato, onion"
  ∧ mergeIngredients "egg" "egg" = "egg, egg".
Proof.
  split.
  - destruct (merge_policy "egg, rice" "tomato, onion") as (_ & _ & Hrun).
    apply (Hrun 0 (demoPreview "egg, rice") demoShot
                (mkResponse None (Some "tomato, onion")));
      [apply demoPreview_previewing|reflexivity|reflexivity|reflexivity
      |discriminate|discriminate].
  - destruct (merge_policy "egg" "egg") as (Hmerge & _).
    apply Hmerge. discriminate.
Defined.

(** C10.  When the analysis request is fulfilled with no text, or with
    the empty text, the ingredient field is left as it was, and the
    session ends as after any fulfilled analysis: the modal is closed,
    the shutter flag is cleared and the device is released. *)
Theorem empty_detection_keeps_field (sid : nat) (st : AppState) (shot : Shot)
    (response : GenerateContentResponse) :
  previewing sid st → others_stopped sid st → context2d shot = true →
  text response = None ∨ text response = Some EmptyString →
  let st' := run (captureAndAnalyze shot (Fulfilled response)) st in
  input st' = input st
  ∧ isAnalyzing st' = false
  ∧ session_ended st'.
Proof.
  intros Hprev Hoth Hctx Htext. simpl.
  destruct (captureAndAnalyze_fulfilled sid st shot response Hprev Hctx)
    as (Hfield & Han & Hidle & Hstreams).
  assert (Hnone : or_default (text response) EmptyString = EmptyString)
    by (destruct Htext as [-> | ->]; reflexivity).
  rewrite Hnone in Hfield. simpl in Hfield.
  repeat split; try done; try apply Hidle.
  unfold released. rewrite Hstreams. apply alter_stopTracks_released, Hoth.
Qed.

Lemma empty_detection_keeps_field_witness :
  let st' := run (captureAndAnalyze demoShot (Fulfilled (mkResponse None None)))
                 (demoPreview "egg, rice") in
  input st' = "egg, rice" ∧ isAnalyzing st' = false ∧ session_ended st'.
Proof.
  apply (empty_detection_keeps_field 0 (demoPreview "egg, rice") demoShot
           (mkResponse None None));
    [apply demoPreview_previewing|apply demoPreview_others_stopped
    |reflexivity|left; reflexivity].
Defined.

(* ================================================================== *)
(** * The generation cycle                                             *)
(* ================================================================== *)

Lemma generateRecipe_blank isVariation rc ic st :
  truthy (trim (input st)) = false →
  run (generateRecipe isVariation rc ic) st = st.
Proof.
  intros Hb. destruct_state st. js_unfold. simpl. rewrite Hb. reflexivity.
Qed.

(** A rejected request and a text that does not parse end in the outer
    [catch]: nothing is shown and the counter keeps the value it had
    after the first lines of the handler. *)
Lemma generateRecipe_failed isVariation rc ic st :
  truthy (trim (input st)) = true →
  structuredCallSucceeds rc = false →
  let st' := run (generateRecipe isVariation rc ic) st in
  recipe st' = recipe st
  ∧ variationCount st' = (if isVariation then variationCount st else 0)
  ∧ loading st' = false
  ∧ input st' = input st
  ∧ recipesShown st' = recipesShown st.
Proof.
  intros Hb Hf. destruct_state st. js_unfold. simpl. rewrite Hb. simpl.
  destruct rc as [response|]; simpl in Hf.
  - unfold recipeText in Hf. destruct (JSON_parse _); [discriminate|].
    destruct isVariation; simpl; done.
  - destruct isVariation; simpl; done.
Qed.

Lemma generateRecipe_succeeded isVariation response ic st v :
  truthy (trim (input st)) = true →
  JSON_parse (recipeText response) = Normal v →
  let st' := run (generateRecipe isVariation (Fulfilled response) ic) st in
  recipe st' = illustrated v ic
  ∧ variationCount st' = (if isVariation then S (variationCount st) else 0)
  ∧ loading st' = false
  ∧ input st' = input st
  ∧ recipesShown st' = S (recipesShown st).
Proof.
  intros Hb Hp. destruct_state st. js_unfold. simpl. rewrite Hb. simpl.
  unfold recipeText in Hp. rewrite Hp. unfold illustrated.
  destruct (Get v "name"); simpl;
    [destruct ic as [img|]; simpl;
     [destruct (findInlinePart img) as [part|]; simpl;
      [destruct (part ≫= inlineData) as [blob|]; simpl;
       [destruct (Put v _ _); simpl|]|]|]|];
    destruct isVariation; simpl; repeat split; try done; f_equal; lia.
Qed.

Lemma structuredCallSucceeds_true rc :
  structuredCallSucceeds rc = true →
  ∃ response v, rc = Fulfilled response ∧ JSON_parse (recipeText response) = Normal v.
Proof.
  destruct rc as [response|]; simpl; [|discriminate].
  destruct (JSON_parse (recipeText response)) as [v|] eqn:Hp; [|discriminate].
  eauto.
Qed.

(** What a cycle that starts does to the counter. *)
Lemma generateRecipe_counter (st : AppState) (isVariation : bool)
    (rc ic : Settled GenerateContentResponse) :
  truthy (trim (input st)) = true →
  variationCount (run (generateRecipe isVariation rc ic) st)
  = (if isVariation
     then (if structuredCallSucceeds rc then S (variationCount st)
           else variationCount st)
     else 0).
Proof.
  intros Hb. destruct (structuredCallSucceeds rc) eqn:Hs.
  - destruct (structuredCallSucceeds_true rc Hs) as (response & v & -> & Hp).
    destruct (generateRecipe_succeeded isVariation response ic st v Hb Hp)
      as (_ & Hc & _). rewrite Hc. by destruct isVariation.
  - destruct (generateRecipe_failed isVariation rc ic st Hb Hs) as (_ & Hc & _).
    rewrite Hc. by destruct isVariation.
Qed.


(** ** The variation bound *)

Lemma onClickVariation_disabled rc ic st :
  variationDisabled st = true → run (onClickVariation rc ic) st = st.
Proof.
  intros Hd. destruct_state st. unfold variationDisabled in Hd; simpl in Hd.
  js_unfold. simpl. rewrite Hd. reflexivity.
Qed.

Lemma onClickVariation_enabled rc ic st :
  variationDisabled st = false →
  run (onClickVariation rc ic) st = run (generateRecipe true rc ic) st.
Proof.
  intros Hd. destruct_state st. unfold variationDisabled in Hd; simpl in Hd.
  js_unfold. simpl. rewrite Hd. reflexivity.
Qed.

Lemma variationDisabled_false st :
  variationDisabled st = false ↔ loading st = false ∧ variationCount st < 3.
Proof.
  unfold variationDisabled. rewrite orb_false_iff, Nat.leb_gt. done.
Qed.

(** A successful click on an enabled button. *)
Lemma onClickVariation_succeeded rc ic st :
  variationDisabled st = false →
  truthy (trim (input st)) = true →
  structuredCallSucceeds rc = true →
  let st' := run (onClickVariation rc ic) st in
  variationCount st' = S (variationCount st)
  ∧ loading st' = false
  ∧ input st' = input st
  ∧ recipesShown st' = S (recipesShown st).
Proof.
  intros Hd Hb Hs. simpl. rewrite onClickVariation_enabled by done.
  destruct (structuredCallSucceeds_true rc Hs) as (response & v & -> & Hp).
  destruct (generateRecipe_succeeded true response ic st v Hb Hp)
    as (_ & Hc & Hl & Hi & Hn). done.
Qed.

(** Recipes shown plus variations still allowed never grows with a click
    on "Tentar outra ideia". *)
Lemma onClickVariation_budget (c : Click) (st : AppState) :
  let st' := run (onClickVariation c.1 c.2) st in
  recipesShown st' + (3 - variationCount st')
  ≤ recipesShown st + (3 - variationCount st).
Proof.
  simpl. destruct (variationDisabled st) eqn:Hd.
  - rewrite onClickVariation_disabled by done. done.
  - destruct (truthy (trim (input st))) eqn:Hb.
    + destruct (structuredCallSucceeds c.1) eqn:Hs.
      * destruct (onClickVariation_succeeded c.1 c.2 st Hd Hb Hs)
          as (Hc & _ & _ & Hn).
        apply variationDisabled_false in Hd as [_ Hlt]. lia.
      * rewrite onClickVariation_enabled by done.
        destruct (generateRecipe_failed true c.1 c.2 st Hb Hs)
          as (_ & Hc & _ & _ & Hn). lia.
    + rewrite onClickVariation_enabled, generateRecipe_blank by done. done.
Qed.

Lemma clickVariations_budget (clicks : list Click) (st : AppState) :
  let st' := clickVariations clicks st in
  recipesShown st' + (3 - variationCount st')
  ≤ recipesShown st + (3 - variationCount st).
Proof.
  revert st. induction clicks as [|c clicks IH]; intros st; simpl; [done|].
  etransitivity; [apply IH|]. apply onClickVariation_budget.
Qed.

Lemma onClickCreate_budget (c : Click) (st : AppState) :
  let st' := run (onClickCreate c.1 c.2) st in
  recipesShown st' + (3 - variationCount st') ≤ recipesShown st + 4.
Proof.
  simpl.
  assert (Hrun : run (onClickCreate c.1 c.2) st = st
                 ∨ (truthy (trim (input st)) = true
                    ∧ run (onClickCreate c.1 c.2) st
                      = run (generateRecipe false c.1 c.2) st)).
  { destruct st as [inp pref rcp [|] opn anl cnt cpd vid cnv strs lg];
      [left; reflexivity|].
    destruct (truthy (trim inp)) eqn:Hb.
    - right. split; [done|]. js_unfold. simpl. rewrite !Hb. simpl.
      rewrite ?Hb. reflexivity.
    - left. js_unfold. simpl. rewrite Hb. reflexivity. }
  destruct Hrun as [-> | [Hb ->]]; [lia|].
  destruct (structuredCallSucceeds c.1) eqn:Hs.
  - destruct (structuredCallSucceeds_true _ Hs) as (response & v & Hrc & Hp).
    rewrite Hrc.
    destruct (generateRecipe_succeeded false response c.2 st v Hb Hp)
      as (_ & Hc & _ & _ & Hn). lia.
  - destruct (generateRecipe_failed false c.1 c.2 st Hb Hs)
      as (_ & Hc & _ & _ & Hn). lia.
Qed.

(** C3.  From a counter at 0, three clicks on "Tentar outra ideia" whose
    structured calls succeed bring the counter to 3 and disable the
    button: a fourth click leaves the state, and with it the log of
    requests sent to the model, as it is.  Hence one click on "Criar
    Receita" followed by any clicks on "Tentar outra ideia", whatever
    the model answers, shows at most 4 recipes. *)
Theorem variation_bound :
  (∀ (st : AppState) (c1 c2 c3 c4 : Click),
     variationCount st = 0 → loading st = false →
     truthy (trim (input st)) = true →
     structuredCallSucceeds c1.1 = true →
     structuredCallSucceeds c2.1 = true →
     structuredCallSucceeds c3.1 = true →
     let st3 := clickVariations [c1; c2; c3] st in
     variationCount st3 = 3
     ∧ recipesShown st3 = recipesShown st + 3
     ∧ variationDisabled st3 = true
     ∧ run (onClickVariation c4.1 c4.2) st3 = st3
     ∧ modelCalls (run (onClickVariation c4.1 c4.2) st3) = modelCalls st3)
  ∧ (∀ (st : AppState) (first : Click) (clicks : list Click),
       recipesShown (clickVariations clicks (run (onClickCreate first.1 first.2) st))
       ≤ recipesShown st + 4).
Proof.
  split.
  - intros st c1 c2 c3 c4 Hc Hl Hb H1 H2 H3. cbn [clickVariations foldl].
    set (st1 := run (onClickVariation c1.1 c1.2) st).
    set (st2 := run (onClickVariation c2.1 c2.2) st1).
    set (st3 := run (onClickVariation c3.1 c3.2) st2).
    assert (Hd0 : variationDisabled st = false)
      by (apply variationDisabled_false; split; [done|lia]).
    destruct (onClickVariation_succeeded c1.1 c1.2 st Hd0 Hb H1)
      as (Hc1 & Hl1 & Hi1 & Hn1). fold st1 in Hc1, Hl1, Hi1, Hn1.
    assert (Hd1 : variationDisabled st1 = false)
      by (apply variationDisabled_false; split; [done|lia]).
    assert (Hb1 : truthy (trim (input st1)) = true) by (rewrite Hi1; done).
    destruct (onClickVariation_succeeded c2.1 c2.2 st1 Hd1 Hb1 H2)
      as (Hc2 & Hl2 & Hi2 & Hn2). fold st2 in Hc2, Hl2, Hi2, Hn2.
    assert (Hd2 : variationDisabled st2 = false)
      by (apply variationDisabled_false; split; [done|lia]).
    assert (Hb2 : truthy (trim (input st2)) = true) by (rewrite Hi2; done).
    destruct (onClickVariation_succeeded c3.1 c3.2 st2 Hd2 Hb2 H3)
      as (Hc3 & Hl3 & Hi3 & Hn3). fold st3 in Hc3, Hl3, Hi3, Hn3.
    assert (Hd3 : variationDisabled st3 = true).
    { unfold variationDisabled. rewrite Hl3, Hc3, Hc2, Hc1, Hc. reflexivity. }
    rewrite (onClickVariation_disabled c4.1 c4.2 st3 Hd3).
    repeat split; [lia|lia|done].
  - intros st first clicks.
    pose proof (clickVariations_budget clicks
                  (run (onClickCreate first.1 first.2) st)) as Hv.
    pose proof (onClickCreate_budget first st) as Hc.
    simpl in Hv, Hc. lia.
Qed.

(** ** Reachable states *)

(** A cycle leaves the cells of the camera alone, and clears the spinner
    when it has started. *)
Lemma generateRecipe_frame isVariation rc ic st :
  let st' := run (generateRecipe isVariation rc ic) st in
  input st' = input st ∧ preference st' = preference st
  ∧ isCameraOpen st' = isCameraOpen st ∧ isAnalyzing st' = isAnalyzing st
  ∧ videoRef st' = videoRef st ∧ canvasRef st' = canvasRef st
  ∧ streams st' = streams st
  ∧ (truthy (trim (input st)) = true → loading st' = false).
Proof.
  destruct_state st. js_unfold. simpl.
  destruct (truthy (trim inp)); simpl; [|done].
  destruct rc as [response|]; simpl; [|destruct isVariation; done].
  destruct (JSON_parse _) as [v|]; simpl; [|destruct isVariation; done].
  destruct (Get v "name"); simpl;
    [destruct ic as [img|]; simpl;
     [destruct (findInlinePart img) as [part|]; simpl;
      [destruct (part ≫= inlineData) as [blob|]; simpl;
       [destruct (Put v _ _); simpl|]|]|]|];
    destruct isVariation; done.
Qed.

(** Every handler keeps the page settled. *)
Lemma settled_step (e : Event) (st : AppState) :
  settled st → settled (run (handler e) st).
Proof.
  intros (Hc & Hl & Hcam).
  destruct e as [value|pref|rc ic|rc ic| |camera| |shot analysis].
  - destruct_state st; js_unfold; simpl; done.
  - destruct_state st; js_unfold; simpl; done.
  - assert (Hrun : run (onClickCreate rc ic) st = st
                   ∨ (truthy (trim (input st)) = true
                      ∧ run (onClickCreate rc ic) st = run (generateRecipe false rc ic) st)).
    { destruct_state st. subst. destruct (truthy (trim inp)) eqn:Hb.
      - right. split; [done|]. js_unfold. simpl. rewrite !Hb. simpl. rewrite ?Hb. done.
      - left. js_unfold. simpl. rewrite Hb. done. }
    simpl. destruct Hrun as [-> | [Hb ->]]; [done|].
    destruct (generateRecipe_frame false rc ic st) as (_ & _ & Ho & _ & Hv & Hk & _ & Hld).
    unfold settled.
    rewrite (generateRecipe_counter st false rc ic Hb), Ho, Hv, Hk, (Hld Hb).
    split; [lia|done].
  - simpl. destruct (variationDisabled st) eqn:Hd.
    + rewrite onClickVariation_disabled by done. done.
    + rewrite onClickVariation_enabled by done.
      apply variationDisabled_false in Hd as [_ Hlt].
      destruct (generateRecipe_frame true rc ic st) as (_ & _ & Ho & _ & Hv & Hk & _ & Hld).
      destruct (truthy (trim (input st))) eqn:Hb.
      * unfold settled.
        rewrite (generateRecipe_counter st true rc ic Hb), Ho, Hv, Hk, (Hld eq_refl).
        split; [destruct (structuredCallSucceeds rc); lia|done].
      * rewrite generateRecipe_blank by done. done.
  - destruct_state st; js_unfold; simpl; done.
  - destruct_state st; js_unfold; simpl.
    destruct camera; simpl; [destruct vid|]; simpl; repeat split; done.
  - destruct_state st; js_unfold; simpl.
    destruct vid as [[[sid|]]|]; simpl; done.
  - destruct_state st; js_unfold; simpl.
    destruct anl; [done|]. destruct vid as [v|]; [|done].
    destruct cnv as [c|]; [|done]. simpl.
    destruct opn; [|destruct (Hcam eq_refl); done].
    destruct (context2d shot); [|simpl; repeat split; done].
    simpl. destruct analysis as [response|]; simpl; [|repeat split; done].
    destruct (truthy _); simpl; destruct v as [[sid|]]; done.
Qed.

(** In every state the page can reach the counter is at most 3. *)
Lemma reachable_settled (st : AppState) : reachable st → settled st.
Proof.
  induction 1 as [|e st _ IH]; [|by apply settled_step].
  repeat split; simpl; done || lia.
Qed.

Lemma friedRiceText_parses : JSON_parse friedRiceText = Normal (toJS friedRice).
Proof. vm_compute. reflexivity. Qed.

Lemma asRecipe_friedRice : asRecipe (toJS friedRice) = Some friedRice.
Proof. vm_compute. reflexivity. Qed.


Lemma variation_bound_witness :
  variationCount demoExhausted = 3
  ∧ variationDisabled demoExhausted = true
  ∧ run (onClickVariation friedRiceCall Rejected) demoExhausted = demoExhausted
  ∧ recipesShown demoExhausted ≤ 4.
Proof.
  destruct variation_bound as [Hthree Hfour].
  destruct (Hthree demoServed demoClick demoClick demoClick demoClick)
    as (Hc & _ & Hd & Hrun & _); try reflexivity.
  split; [exact Hc|]. split; [exact Hd|]. split; [exact Hrun|].
  apply (Hfour demoKitchen demoClick [demoClick; demoClick; demoClick]).
Defined.

(** ** Clearing the session *)




(** ** The structured call *)

Lemma recipeText_missing cs body :
  body = None ∨ body = Some EmptyString →
  JSON_parse (recipeText (mkResponse cs body)) = Normal (JSObject []).
Proof. intros [-> | ->]; vm_compute; reflexivity. Qed.

Lemma illustrated_empty_object ic :
  illustrated (JSObject []) ic = JSObject []
  ∨ ∃ url, illustrated (JSObject []) ic = JSObject [("imageUrl", JSString url)].
Proof.
  unfold illustrated. simpl. destruct ic as [img|]; [|by left].
  destruct (findInlinePart img) as [part|]; [|by left].
  destruct (part ≫= inlineData) as [blob|]; [|by left].
  right. eexists. reflexivity.
Qed.

(** C2 fails on a missing body.  When the structured request is
    fulfilled with no text, or with the empty text, [generateRecipe]
    parses the text of an empty object and shows that object: a value
    with none of the required properties of a recipe replaces what the
    page showed before, and the cycle counts as a success. *)
Theorem missing_body_is_shown (st : AppState) (isVariation : bool)
    (cs : option (list Candidate)) (body : option string)
    (ic : Settled GenerateContentResponse) :
  truthy (trim (input st)) = true →
  body = None ∨ body = Some EmptyString →
  let st' := run (generateRecipe isVariation (Fulfilled (mkResponse cs body)) ic) st in
  Get (recipe st') "name" = Normal None
  ∧ asRecipe (recipe st') = None
  ∧ recipesShown st' = S (recipesShown st)
  ∧ variationCount st' = (if isVariation then S (variationCount st) else 0)
  ∧ (recipe st = JSNull ∨ is_Some (asRecipe (recipe st)) → recipe st' ≠ recipe st).
Proof.
  intros Hb Hbody. simpl.
  destruct (generateRecipe_succeeded isVariation (mkResponse cs body) ic st
              (JSObject []) Hb (recipeText_missing cs body Hbody))
    as (Hr & Hc & _ & _ & Hn).
  rewrite Hr, Hc, Hn.
  assert (Hshape : Get (illustrated (JSObject []) ic) "name" = Normal None
                   ∧ asRecipe (illustrated (JSObject []) ic) = None
                   ∧ illustrated (JSObject []) ic ≠ JSNull).
  { destruct (illustrated_empty_object ic) as [-> | [url ->]]; done. }
  destruct Hshape as (Hname & Hnot & Hnull).
  repeat split; try done.
  intros [Hprior | [r Hprior]] Heq; rewrite <- Heq in Hprior; congruence.
Qed.

Lemma missing_body_is_shown_witness :
  let st' := run (generateRecipe true emptyBodyCall Rejected) demoServed in
  asRecipe (recipe demoServed) = Some friedRice
  ∧ recipe st' = JSObject []
  ∧ asRecipe (recipe st') = None
  ∧ variationCount st' = 1.
Proof.
  destruct (missing_body_is_shown demoServed true None None Rejected)
    as (_ & Hnot & _ & Hc & _); [reflexivity|left; reflexivity|].
  split; [reflexivity|]. split; [reflexivity|]. split; [exact Hnot|exact Hc].
Defined.

(** ** The illustration call *)

Lemma illustrated_failed (v : JSValue) (ic : Settled GenerateContentResponse) :
  illustrationFails ic = true → illustrated v ic = v.
Proof.
  unfold illustrated, illustrationFails. intros Hf.
  destruct (Get v "name"); [|done].
  destruct ic as [img|]; [|done].
  destruct (findInlinePart img) as [part|]; [|done].
  apply bool_decide_eq_true in Hf. rewrite Hf. done.
Qed.

(** C8.  When the structured call gives a recipe and the illustration
    request is rejected, or its response has no part with inline data,
    the cycle ends as a success: the parsed recipe is shown as it was
    parsed, so without [imageUrl], the spinner is cleared, and the
    counter moves as after any success. *)
Theorem illustration_failure_swallowed (st : AppState) (isVariation : bool)
    (response : GenerateContentResponse) (ic : Settled GenerateContentResponse)
    (v : JSValue) (r : Recipe) :
  truthy (trim (input st)) = true →
  JSON_parse (recipeText response) = Normal v →
  asRecipe v = Some r → imageUrl r = None →
  illustrationFails ic = true →
  let st' := run (generateRecipe isVariation (Fulfilled response) ic) st in
  recipe st' = v
  ∧ (asRecipe (recipe st') = Some r ∧ imageUrl r = None)
  ∧ loading st' = false
  ∧ recipesShown st' = S (recipesShown st)
  ∧ variationCount st' = (if isVariation then S (variationCount st) else 0).
Proof.
  intros Hb Hp Hr Hno Hf. simpl.
  destruct (generateRecipe_succeeded isVariation response ic st v Hb Hp)
    as (Hv & Hc & Hl & _ & Hn).
  rewrite (illustrated_failed v ic Hf) in Hv. rewrite Hv. done.
Qed.

Lemma illustration_failure_swallowed_witness :
  recipe (run (generateRecipe false friedRiceCall Rejected) demoKitchen)
  = toJS friedRice
  ∧ recipe (run (generateRecipe true friedRiceCall declinedIllustration) demoServed)
    = toJS friedRice.
Proof.
  split.
  - apply (illustration_failure_swallowed demoKitchen false
             (mkResponse None (Some friedRiceText)) Rejected
             (toJS friedRice) friedRice); reflexivity.
  - apply (illustration_failure_swallowed demoServed true
             (mkResponse None (Some friedRiceText)) declinedIllustration
             (toJS friedRice) friedRice); reflexivity.
Defined.

Lemma lookup_assign_prop (k k' : string) (v : JSValue)
    (ps : list (string * JSValue)) :
  lookup_prop k (assign_prop k' v ps)
  = if String.eqb k k' then Some v else lookup_prop k ps.
Proof.
  induction ps as [|[k0 v0] ps IH]; simpl.
  - destruct (String.eqb k k'); reflexivity.
  - destruct (String.eqb k' k0) eqn:Hk0; simpl.
    + apply String.eqb_eq in Hk0 as <-. destruct (String.eqb k k'); reflexivity.
    + rewrite IH. destruct (String.eqb k k0) eqn:Hk; [|reflexivity].
      apply String.eqb_eq in Hk as ->.
      rewrite String.eqb_sym, Hk0. reflexivity.
Qed.

(** Attaching the image to a value that is a recipe gives that recipe
    with the image. *)
Lemma asRecipe_Put_imageUrl (v : JSValue) (r : Recipe) (url : string) :
  asRecipe v = Some r →
  ∃ v', Put v "imageUrl" (JSString url) = Normal v'
        ∧ asRecipe v' = Some (withImage r url).
Proof.
  destruct v as [| | | | |ps]; try discriminate. intros Hr.
  eexists. split; [reflexivity|].
  unfold asRecipe in *. rewrite !lookup_assign_prop. simpl.
  destruct (lookup_prop "name" ps ≫= asString) as [n|]; [|discriminate].
  destruct (lookup_prop "ingredients" ps ≫= asStringArray) as [ings|]; [|discriminate].
  destruct (lookup_prop "instructions" ps ≫= asStringArray) as [ss|]; [|discriminate].
  destruct (lookup_prop "totalTime" ps ≫= asString) as [t|]; [|discriminate].
  destruct (asOptionalString (lookup_prop "tip" ps)) as [tp|]; [|discriminate].
  destruct (asOptionalString (lookup_prop "imageUrl" ps)) as [im|]; [|discriminate].
  simpl in *. injection Hr as <-. reflexivity.
Qed.

(** C9 (as amended).  When the structured call gives a recipe and the
    illustration response has a part with inline data [d], the recipe
    shown is that recipe with [imageUrl] set to the data URI
    [data:image/png;base64,] followed by [d]: the media type it declares
    is [image/png], whatever MIME type the part reports. *)
Theorem illustration_data_uri (st : AppState) (isVariation : bool)
    (response imgResponse : GenerateContentResponse) (v : JSValue) (r : Recipe)
    (part : Part) (d : string) (mime : option string) :
  truthy (trim (input st)) = true →
  JSON_parse (recipeText response) = Normal v →
  asRecipe v = Some r →
  findInlinePart imgResponse = Normal (Some part) →
  inlineData part = Some (mkBlob (Some d) mime) →
  let st' := run (generateRecipe isVariation (Fulfilled response)
                                 (Fulfilled imgResponse)) st in
  let url := "data:image/png;base64," +:+ d in
  asRecipe (recipe st') = Some (withImage r url)
  ∧ declaredMime url = Some "image/png".
Proof.
  intros Hb Hp Hr Hfind Hblob. simpl.
  destruct (generateRecipe_succeeded isVariation response (Fulfilled imgResponse)
              st v Hb Hp) as (Hv & _).
  destruct (asRecipe_Put_imageUrl v r ("data:image/png;base64," +:+ d) Hr)
    as (v' & Hput & Hr').
  split; [|reflexivity].
  rewrite Hv. unfold illustrated. rewrite Hfind. simpl. rewrite Hblob. simpl.
  rewrite Hput.
  destruct v as [| | | | |ps]; try discriminate. simpl. exact Hr'.
Qed.

Lemma illustration_data_uri_witness :
  asRecipe (recipe (run (generateRecipe false friedRiceCall (illustration jpegBlob))
                        demoKitchen))
  = Some (withImage friedRice "data:image/png;base64,/9j/4AAQSkZJRg==").
Proof.
  apply (illustration_data_uri demoKitchen false
           (mkResponse None (Some friedRiceText))
           (mkResponse (Some [mkCandidate (Some (mkContent (Some [mkPart (Some jpegBlob) None])))])
                       None)
           (toJS friedRice) friedRice (mkPart (Some jpegBlob) None)
           "/9j/4AAQSkZJRg==" (Some "image/jpeg")); reflexivity.
Defined.

(** C9 (as stated) fails: for a part that reports [image/jpeg] the data
    URI of the recipe shown declares another type. *)
Lemma illustration_mime_mismatch :
  mimeType jpegBlob = Some "image/jpeg"
  ∧ (asRecipe (recipe (run (generateRecipe false friedRiceCall (illustration jpegBlob))
                           demoKitchen)) ≫= imageUrl) ≫= declaredMime
    ≠ mimeType jpegBlob.
Proof. split; [reflexivity|]. vm_compute. discriminate. Qed.

(** The MIME type of the part plays no role in the cycle. *)
Lemma illustration_mime_ignored (st : AppState) (isVariation : bool)
    (rc : Settled GenerateContentResponse) (d m1 m2 : option string) :
  run (generateRecipe isVariation rc (illustration (mkBlob d m1))) st
  = run (generateRecipe isVariation rc (illustration (mkBlob d m2))) st.
Proof. reflexivity. Qed.

(* ================================================================== *)
(** * The export formatter                                             *)
(* ================================================================== *)

Lemma append_assoc (a b c : string) : (a +:+ b) +:+ c = a +:+ (b +:+ c).
Proof.
  induction a as [|x a IH]; [done|].
  change (String x ((a +:+ b) +:+ c) = String x (a +:+ (b +:+ c))). by f_equal.
Qed.

Lemma join_cons (sep x : string) (l : list string) :
  l ≠ [] → join sep (x :: l) = x +:+ sep +:+ join sep l.
Proof. destruct l; [done|]. reflexivity. Qed.

Lemma join_app (sep : string) (l1 l2 : list string) :
  l1 ≠ [] → l2 ≠ [] →
  join sep (l1 ++ l2) = join sep l1 +:+ sep +:+ join sep l2.
Proof.
  intros H1 H2. induction l1 as [|x l1 IH]; [done|].
  destruct l1 as [|y l1].
  - simpl. destruct l2; [done|]. reflexivity.
  - change ((x :: y :: l1) ++ l2) with (x :: ((y :: l1) ++ l2)).
    rewrite join_cons by done. rewrite IH by done.
    rewrite (join_cons sep x (y :: l1)) by done.
    by rewrite !append_assoc.
Qed.

Lemma join_sectionBody (sep : string) (items : list string) :
  join sep (sectionBody items) = join sep items.
Proof. by destruct items. Qed.

Lemma sectionBody_nonempty (items : list string) : sectionBody items ≠ [].
Proof. by destruct items. Qed.

(** The template [`${i + 1}. ${step}`] mapped over the steps numbers
    them from 1. *)
Lemma imap_numbered (k : nat) (steps : list string) :
  imap (λ i step, Number_toString (i + k) +:+ ". " +:+ step) steps
  = numbered k steps.
Proof.
  revert k. induction steps as [|s steps IH]; intros k; [done|].
  simpl. f_equal. rewrite <- IH. apply imap_ext. intros i x _. simpl.
  by rewrite Nat.add_succ_r.
Qed.

Lemma numbered_lookup (k i : nat) (steps : list string) (step : string) :
  steps !! i = Some step →
  numbered k steps !! i = Some (Number_toString (i + k) +:+ ". " +:+ step).
Proof.
  revert k i. induction steps as [|s steps IH]; intros k [|i] Hi; try done.
  - simpl in *. by injection Hi as ->.
  - simpl in *. rewrite (IH (S k) i Hi). by rewrite Nat.add_succ_r.
Qed.

Lemma numbered_length (k : nat) (steps : list string) :
  length (numbered k steps) = length steps.
Proof. revert k. induction steps as [|s steps IH]; intros k; simpl; [done|]. by rewrite IH. Qed.

(** C7.  The exported text is these lines, in this order, joined by line
    feeds: the title with the name, a blank line, the total time, a
    blank line, the ingredients heading, one bullet for each ingredient
    in the order of the recipe, a blank line, the instructions heading,
    the steps in the order of the recipe numbered from 1, the tip block
    and the footer.  The tip block is empty when the recipe has no tip,
    and is a blank line and the tip line when it has one. *)
Theorem export_layout (r : Recipe) :
  getMarkdownRecipe (Some r)
  = join LF ([titleLine r; EmptyString; timeLine r; EmptyString; ingredientsHeading]
             ++ sectionBody (bullet <$> ingredients r)
             ++ [EmptyString; instructionsHeading]
             ++ sectionBody (numbered 1 (instructions r))
             ++ tipBlock (tip r)
             ++ footerLines)
  ∧ length (bullet <$> ingredients r) = length (ingredients r)
  ∧ (∀ i ing, ingredients r !! i = Some ing →
       (bullet <$> ingredients r) !! i = Some ("- " +:+ ing))
  ∧ length (numbered 1 (instructions r)) = length (instructions r)
  ∧ (∀ i step, instructions r !! i = Some step →
       numbered 1 (instructions r) !! i
       = Some (Number_toString (i + 1) +:+ ". " +:+ step))
  ∧ (tip r = None → tipBlock (tip r) = [])
  ∧ (∀ t, tip r = Some t → t ≠ EmptyString →
       tipBlock (tip r) = [EmptyString; "> 💡 **Dica do Chef:** " +:+ t]).
Proof.
  split; [|split; [|split; [|split; [|split; [|split]]]]].
  - unfold getMarkdownRecipe.
    rewrite (imap_numbered 1).
    change (map (λ ing, "- " +:+ ing) (ingredients r))
      with (bullet <$> ingredients r).
    set (ings := bullet <$> ingredients r).
    set (steps := numbered 1 (instructions r)).
    rewrite (join_app LF [_; _; _; _; _])
      by (done || (destruct ings; done)).
    rewrite (join_app LF (sectionBody ings))
      by (apply sectionBody_nonempty || done).
    rewrite (join_app LF [_; _]) by (done || (destruct steps; done)).
    rewrite (join_app LF (sectionBody steps))
      by (apply sectionBody_nonempty || (destruct (tip r) as [[|]|]; done)).
    rewrite !join_sectionBody.
    unfold titleLine, timeLine.
    destruct (tip r) as [[|c t]|]; cbn [tipBlock truthy];
      cbn [join app footerLines]; rewrite !append_assoc; reflexivity.
  - apply length_fmap.
  - intros i ing Hi. rewrite list_lookup_fmap, Hi. reflexivity.
  - apply numbered_length.
  - intros i step Hi. apply numbered_lookup, Hi.
  - intros ->. reflexivity.
  - intros t -> Ht. destruct t; [done|]. reflexivity.
Qed.

Lemma export_layout_witness :
  (bullet <$> ingredients friedRice) !! 1 = Some "- egg"
  ∧ numbered 1 (instructions friedRice) !! 2 = Some "3. Mix rice"
  ∧ tipBlock (tip friedRice) = [EmptyString; "> 💡 **Dica do Chef:** Use day-old rice"]
  ∧ tipBlock (tip plainRice) = [].
Proof.
  destruct (export_layout friedRice) as (_ & _ & Hing & _ & Hstep & _ & Htip).
  destruct (export_layout plainRice) as (_ & _ & _ & _ & _ & Hnone & _).
  split; [apply (Hing 1 "egg"); reflexivity|].
  split; [apply (Hstep 2 "Mix rice"); reflexivity|].
  split; [apply (Htip "Use day-old rice"); [reflexivity|discriminate]|].
  apply Hnone. reflexivity.
Defined.

(** The scenario of the specification, with its tip and without. *)
Example export_fried_rice :
  getMarkdownRecipe (Some friedRice)
  = join LF ["# 🍳 Fried Rice"; EmptyString; "⏱ **Tempo total:** 15 min";
             EmptyString; "## 🛒 Ingredientes"; "- rice"; "- egg"; EmptyString;
             "## 👨‍🍳 Modo de Preparo"; "1. Heat oil"; "2. Fry egg";
             "3. Mix rice"; EmptyString;
             "> 💡 **Dica do Chef:** Use day-old rice"; EmptyString; "---";
             "*Gerado por O Que Tem Aí?*"].
Proof. vm_compute. reflexivity. Qed.

Example export_plain_rice :
  getMarkdownRecipe (Some plainRice)
  = join LF ["# 🍳 Fried Rice"; EmptyString; "⏱ **Tempo total:** 15 min";
             EmptyString; "## 🛒 Ingredientes"; "- rice"; "- egg"; EmptyString;
             "## 👨‍🍳 Modo de Preparo"; "1. Heat oil"; "2. Fry egg";
             "3. Mix rice"; EmptyString; "---"; "*Gerado por O Que Tem Aí?*"].
Proof. vm_compute. reflexivity. Qed.

(* ================================================================== *)
(** * The camera, step by step                                         *)
(* ================================================================== *)


Lemma onClickCreate_cases rc ic st :
  run (onClickCreate rc ic) st = st
  ∨ (loading st = false ∧ truthy (trim (input st)) = true
     ∧ run (onClickCreate rc ic) st = run (generateRecipe false rc ic) st).
Proof.
  destruct st as [inp pref rcp [|] opn anl cnt cpd vid cnv strs lg];
    [left; reflexivity|].
  destruct (truthy (trim inp)) eqn:Hb.
  - right. split; [done|]. split; [done|]. js_unfold. simpl. rewrite !Hb. simpl.
    rewrite ?Hb. reflexivity.
  - left. js_unfold. simpl. rewrite Hb. reflexivity.
Qed.

Lemma onClickVariation_cases rc ic st :
  run (onClickVariation rc ic) st = st
  ∨ (variationDisabled st = false
     ∧ run (onClickVariation rc ic) st = run (generateRecipe true rc ic) st).
Proof.
  destruct (variationDisabled st) eqn:Hd.
  - left. by apply onClickVariation_disabled.
  - right. split; [done|]. by apply onClickVariation_enabled.
Qed.

(** The events that start a cycle leave the camera and the device alone. *)
Lemma cycle_events_keep_camera (e : Event) (st : AppState) :
  match e with
  | ClickCreate _ _ | ClickVariation _ _ =>
      let st' := run (handler e) st in
      isCameraOpen st' = isCameraOpen st ∧ isAnalyzing st' = isAnalyzing st
      ∧ videoRef st' = videoRef st ∧ canvasRef st' = canvasRef st
      ∧ streams st' = streams st ∧ input st' = input st
      ∧ preference st' = preference st
  | _ => True
  end.
Proof.
  destruct e as [value|pref|rc ic|rc ic| |camera| |shot analysis]; try done; simpl.
  - destruct (onClickCreate_cases rc ic st) as [-> | (_ & _ & ->)]; [done|].
    destruct (generateRecipe_frame false rc ic st) as (? & ? & ? & ? & ? & ? & ? & _).
    done.
  - destruct (onClickVariation_cases rc ic st) as [-> | (_ & ->)]; [done|].
    destruct (generateRecipe_frame true rc ic st) as (? & ? & ? & ? & ? & ? & ? & _).
    done.
Qed.

Lemma step_cameraMove (x : Step) (st : AppState) :
  cameraMove st (run (stepHandler x) st).
Proof.
  destruct x as [e| |camera|shot|analysis].
  - destruct e as [value|pref|rc ic|rc ic| |camera| |shot analysis].
    + left. destruct_state st. js_unfold_steps. simpl. auto.
    + left. destruct_state st. js_unfold_steps. simpl. auto.
    + left. destruct (cycle_events_keep_camera (ClickCreate rc ic) st)
        as (_ & _ & Hv & _ & Hs & _). simpl in *. auto.
    + left. destruct (cycle_events_keep_camera (ClickVariation rc ic) st)
        as (_ & _ & Hv & _ & Hs & _). simpl in *. auto.
    + left. destruct_state st. js_unfold_steps. simpl. auto.
    + destruct_state st. js_unfold_steps. simpl.
      destruct camera as [cam|]; simpl.
      * right. left. exists cam. destruct vid; simpl; auto.
      * left. simpl. auto.
    + destruct_state st. js_unfold_steps. simpl.
      destruct vid as [[[i|]]|]; simpl.
      * right. right. exists i. auto.
      * left. auto.
      * left. auto.
    + destruct_state st. js_unfold_steps. simpl.
      destruct anl; [left; auto|]. destruct vid as [v|]; [|left; auto].
      destruct cnv as [c|]; [|left; auto]. simpl.
      destruct (context2d shot); [|left; simpl; auto]. simpl.
      destruct analysis as [response|]; simpl; [|left; auto].
      destruct (truthy _); simpl; destruct v as [[i|]]; simpl;
        ((right; right; exists i; by auto) || (left; by auto)).
  - left. destruct_state st. js_unfold_steps. simpl.
    destruct vid; simpl; auto.
  - destruct_state st. js_unfold_steps. simpl.
    destruct camera as [cam|]; simpl.
    + right. left. exists cam. destruct vid; simpl; auto.
    + left. auto.
  - left. destruct_state st. js_unfold_steps. simpl.
    destruct anl; [auto|]. destruct vid as [v|]; [|auto].
    destruct cnv as [c|]; [|auto]. simpl.
    destruct (context2d shot); simpl; auto.
  - destruct_state st. js_unfold_steps. simpl.
    destruct analysis as [response|]; simpl; [|left; auto].
    destruct (truthy _); simpl; destruct vid as [[[i|]]|]; simpl;
      ((right; right; exists i; by auto) || (left; by auto)).
Qed.

(* ================================================================== *)
(** * What the page does to the device                              *)
(* ================================================================== *)

Lemma aged_refl t : aged t t.
Proof. by left. Qed.

Lemma aged_trans t1 t2 t3 : aged t1 t2 → aged t2 t3 → aged t1 t3.
Proof. unfold aged. intros [->| ->] [->| ->]; auto. Qed.

Lemma agedStream_refl s : agedStream s s.
Proof.
  repeat split. apply Forall2_same_length_lookup_2; [done|].
  intros i x y Hx Hy. rewrite Hx in Hy. injection Hy as <-. apply aged_refl.
Qed.

Lemma agedStream_trans s1 s2 s3 :
  agedStream s1 s2 → agedStream s2 s3 → agedStream s1 s3.
Proof.
  intros (Hw1 & Hh1 & Ht1) (Hw2 & Hh2 & Ht2).
  split; [congruence|]. split; [congruence|].
  revert Ht2. generalize (getTracks s3). induction Ht1 as [|t1 t2 l1 l2 Ht Hl IH];
    intros l3 H3; inversion H3; subst; constructor; eauto using aged_trans.
Qed.

Lemma agedStream_stopTracks s : agedStream s (stopTracks s).
Proof.
  repeat split. simpl. induction (getTracks s) as [|t l IH]; constructor; [|done].
  by right.
Qed.

Lemma agedStream_stopped s s' : agedStream s s' → stopped s → stopped s'.
Proof.
  intros (_ & _ & Ht) Hs. unfold stopped in *.
  induction Ht as [|t t' l l' Hag Hl IH]; [done|].
  inversion Hs as [|? ? Ht Hl']; subst. constructor; [|by apply IH].
  destruct Hag as [-> | ->]; done.
Qed.

Lemma cameraMove_aged st st' i s :
  cameraMove st st' → streams st !! i = Some s →
  ∃ s', streams st' !! i = Some s' ∧ agedStream s s'.
Proof.
  intros [(Hs & _) | [(cam & Hs & _) | (j & _ & Hs & _)]] Hi; rewrite Hs.
  - exists s. split; [done|apply agedStream_refl].
  - exists s. split; [by apply lookup_app_l_Some|apply agedStream_refl].
  - destruct (decide (i = j)) as [->|Hne].
    + exists (stopTracks s). rewrite list_lookup_alter_eq, Hi. split; [done|].
      apply agedStream_stopTracks.
    + exists s. rewrite list_lookup_alter_ne by done. split; [done|].
      apply agedStream_refl.
Qed.

Lemma cameraMove_off st st' i :
  cameraMove st st' → i < length (streams st) → offVideo i st →
  streams st' !! i = streams st !! i
  ∧ i < length (streams st') ∧ offVideo i st'.
Proof.
  unfold offVideo.
  intros [(Hs & Hv) | [(cam & Hs & Hv) | (j & Hj & Hs & Hv)]] Hlt Hoff; rewrite Hs.
  - split; [done|]. split; [done|].
    destruct Hv as [-> | [-> | ->]]; done.
  - split; [by apply lookup_app_l|]. split; [rewrite length_app; lia|].
    destruct Hv as [-> | ->]; [done|]. intros [= Heq]. lia.
  - assert (i ≠ j) by (intros ->; done).
    split; [by apply list_lookup_alter_ne|]. split; [by rewrite length_alter|].
    rewrite Hv. done.
Qed.

(** X1.  No sequence of steps removes a stream from the device, changes
    the size of its frames or makes a stopped track live again: each
    stream the device has handed out is still there after the steps,
    with every track as it was or stopped. *)
Theorem tracks_never_restart (steps : list Step) (st : AppState) (i : nat)
    (s : MediaStream) :
  streams st !! i = Some s →
  ∃ s', streams (runSteps steps st) !! i = Some s'
        ∧ agedStream s s'
        ∧ (stopped s → stopped s').
Proof.
  revert st s. induction steps as [|x steps IH]; intros st s Hi; simpl.
  - exists s. split; [done|]. split; [apply agedStream_refl|done].
  - destruct (cameraMove_aged st (run (stepHandler x) st) i s
                (step_cameraMove x st) Hi) as (s1 & Hi1 & Hag1).
    destruct (IH _ _ Hi1) as (s' & Hi' & Hag' & _).
    exists s'. split; [done|].
    assert (Hag : agedStream s s') by eauto using agedStream_trans.
    split; [done|]. by apply agedStream_stopped.
Qed.

Lemma tracks_never_restart_witness :
  ∃ s', streams (runSteps [Atomic ClickClose; ScanRequest;
                           ScanSettled (Fulfilled demoCamera)]
                          (demoPreview "ovo")) !! 0 = Some s'
        ∧ agedStream demoCamera s'.
Proof.
  destruct (tracks_never_restart
              [Atomic ClickClose; ScanRequest; ScanSettled (Fulfilled demoCamera)]
              (demoPreview "ovo") 0 demoCamera) as (s' & Hi & Hag & _);
    [reflexivity|].
  exists s'. split; [exact Hi|exact Hag].
Defined.

(** X2.  The page stops only the stream that is on its video element: a
    stream that the device has handed out and that is not on the video
    keeps every track as it is, whatever steps follow, and is never put
    on the video. *)
Theorem off_video_stream_untouched (steps : list Step) (st : AppState) (i : nat) :
  i < length (streams st) → offVideo i st →
  streams (runSteps steps st) !! i = streams st !! i
  ∧ offVideo i (runSteps steps st).
Proof.
  revert st. induction steps as [|x steps IH]; intros st Hlt Hoff; simpl; [done|].
  destruct (cameraMove_off st (run (stepHandler x) st) i (step_cameraMove x st)
              Hlt Hoff) as (Hi & Hlt' & Hoff').
  destruct (IH _ Hlt' Hoff') as (Hi' & Hoff''). split; [congruence|done].
Qed.

Lemma off_video_stream_untouched_witness :
  streams (runSteps [Atomic (ClickScan (Fulfilled demoCamera)); Atomic ClickClose]
                    (runSteps [ScanRequest; Atomic ClickClose;
                               ScanSettled (Fulfilled demoCamera)] initial)) !! 0
  = Some demoCamera.
Proof.
  destruct (off_video_stream_untouched
              [Atomic (ClickScan (Fulfilled demoCamera)); Atomic ClickClose]
              (runSteps [ScanRequest; Atomic ClickClose;
                         ScanSettled (Fulfilled demoCamera)] initial) 0)
    as [Hi _].
  - simpl. lia.
  - discriminate.
  - rewrite Hi. reflexivity.
Defined.

(* ================================================================== *)
(** * The cells of the page fit together                            *)
(* ================================================================== *)

Lemma coherent_settled st : coherent st → settled st.
Proof. intros (_ & Hc & _ & Hl & Hn). done. Qed.



Lemma coherent_step (x : Step) (st : AppState) :
  coherent st → coherent (run (stepHandler x) st).
Proof.
  intros Hco. pose proof Hco as (Hopen & Hclosed & Hsrc & Hl & Hn).
  destruct x as [e| |camera|shot|analysis].
  - destruct e as [value|pref|rc ic|rc ic| |camera| |shot analysis].
    + destruct_state st. js_unfold_steps. simpl. done.
    + destruct_state st. js_unfold_steps. simpl. done.
    + destruct (settled_step (ClickCreate rc ic) st (coherent_settled st Hco))
        as (Hn' & Hl' & _).
      destruct (cycle_events_keep_camera (ClickCreate rc ic) st)
        as (Ho' & _ & Hv' & Hk' & Hs' & _).
      unfold coherent. cbn [stepHandler handler] in *.
      rewrite Ho', Hv', Hk', Hs'. done.
    + destruct (settled_step (ClickVariation rc ic) st (coherent_settled st Hco))
        as (Hn' & Hl' & _).
      destruct (cycle_events_keep_camera (ClickVariation rc ic) st)
        as (Ho' & _ & Hv' & Hk' & Hs' & _).
      unfold coherent. cbn [stepHandler handler] in *.
      rewrite Ho', Hv', Hk', Hs'. done.
    + destruct_state st. js_unfold_steps. simpl. done.
    + destruct_state st. open_or_closed Hopen Hclosed opn;
        js_unfold_steps; simpl; destruct camera as [cam|]; simpl;
        coherent_finish.
    + destruct_state st. open_or_closed Hopen Hclosed opn;
        js_unfold_steps; simpl;
        try match goal with |- context [match ?v with mkVideo _ => _ end] =>
              destruct v as [[i|]] end; simpl; coherent_finish.
    + destruct_state st. open_or_closed Hopen Hclosed opn;
        js_unfold_steps; simpl; (destruct anl; [done|]); simpl; [|done].
      destruct (context2d shot); simpl; [|coherent_finish].
      destruct analysis as [response|]; simpl; [|coherent_finish].
      destruct (truthy _); simpl;
        match goal with |- context [match ?v with mkVideo _ => _ end] =>
          destruct v as [[i|]] end; simpl; coherent_finish.
  - destruct_state st. open_or_closed Hopen Hclosed opn;
      js_unfold_steps; simpl; coherent_finish.
  - destruct_state st. open_or_closed Hopen Hclosed opn;
      js_unfold_steps; simpl; destruct camera as [cam|]; simpl; coherent_finish.
  - destruct_state st. open_or_closed Hopen Hclosed opn;
      js_unfold_steps; simpl; (destruct anl; [done|]); simpl; [|done].
    destruct (context2d shot); simpl; coherent_finish.
  - destruct_state st. open_or_closed Hopen Hclosed opn;
      js_unfold_steps; simpl; (destruct analysis as [response|]; simpl; [|done]);
      destruct (truthy _); simpl;
      try match goal with |- context [match ?v with mkVideo _ => _ end] =>
            destruct v as [[i|]] end; simpl; coherent_finish.
Qed.

Lemma coherent_initial : coherent initial.
Proof. repeat split; simpl; done || lia. Qed.

Lemma coherent_runSteps (steps : list Step) (st : AppState) :
  coherent st → coherent (runSteps steps st).
Proof.
  revert st. induction steps as [|x steps IH]; intros st Hst; simpl; [done|].
  apply IH, coherent_step, Hst.
Qed.


(* ================================================================== *)
(** * The camera modal and its shutter                              *)
(* ================================================================== *)

Lemma no_elements_no_camera (st : AppState) (shot : Shot)
    (p : Settled GenerateContentResponse) :
  isCameraOpen st = false → videoRef st = None → canvasRef st = None →
  run (captureAndAnalyze shot p) st = st ∧ run stopCamera st = st.
Proof.
  intros Ho Hv Hc. destruct_state st. subst. js_unfold. simpl. done.
Qed.

(** X4.  While the camera modal is closed, in any state the page can
    reach, the shutter handler and the close handler change nothing: no
    frame is read, no request is sent, no cell moves. *)
Theorem closed_modal_ignores_camera (steps : list Step) (shot : Shot)
    (p : Settled GenerateContentResponse) :
  isCameraOpen (runSteps steps initial) = false →
  run (captureAndAnalyze shot p) (runSteps steps initial) = runSteps steps initial
  ∧ run stopCamera (runSteps steps initial) = runSteps steps initial.
Proof.
  intros Hclosed.
  destruct (coherent_runSteps steps initial coherent_initial)
    as (_ & Hrefs & _).
  destruct (Hrefs Hclosed) as [Hv Hc].
  by apply no_elements_no_camera.
Qed.

Lemma closed_modal_ignores_camera_witness :
  let st := runSteps [ScanRequest; Atomic ClickClose] initial in
  run (captureAndAnalyze demoShot Rejected) st = st.
Proof.
  destruct (closed_modal_ignores_camera [ScanRequest; Atomic ClickClose]
              demoShot Rejected) as [Hshutter _]; [reflexivity|exact Hshutter].
Defined.

(** Once the shutter flag is set between two events, no event clears it. *)
Lemma isAnalyzing_sticks (e : Event) (st : AppState) :
  isAnalyzing st = true → isAnalyzing (run (handler e) st) = true.
Proof.
  intros Ha.
  destruct e as [value|pref|rc ic|rc ic| |camera| |shot analysis].
  - destruct_state st. subst. js_unfold_steps. simpl. done.
  - destruct_state st. subst. js_unfold_steps. simpl. done.
  - destruct (cycle_events_keep_camera (ClickCreate rc ic) st) as (_ & Hk & _).
    simpl in Hk. simpl. congruence.
  - destruct (cycle_events_keep_camera (ClickVariation rc ic) st) as (_ & Hk & _).
    simpl in Hk. simpl. congruence.
  - destruct_state st. subst. js_unfold_steps. simpl. done.
  - destruct_state st. subst. js_unfold_steps. simpl.
    destruct camera; simpl; [destruct vid|]; done.
  - destruct_state st. subst. js_unfold_steps. simpl.
    destruct vid as [[[i|]]|]; done.
  - destruct_state st. subst. js_unfold_steps. simpl. done.
Qed.

Lemma isAnalyzing_sticks_events (events : list Event) (st : AppState) :
  isAnalyzing st = true → isAnalyzing (runEvents events st) = true.
Proof.
  revert st. induction events as [|e events IH]; intros st Ha; simpl; [done|].
  apply IH, isAnalyzing_sticks, Ha.
Qed.

Lemma onClickCapture_busy shot p st :
  isAnalyzing st = true → run (onClickCapture shot p) st = st.
Proof. intros Ha. destruct_state st. subst. js_unfold. simpl. done. Qed.

(** X5.  When the canvas gives no 2D context, the shutter handler sets
    the shutter flag and returns: it sends no request and shows no
    notice, and nothing resets the flag.  After any later events the
    flag is still set and the shutter button, which it disables, still
    does nothing. *)
Theorem no_context_locks_shutter (st : AppState) (shot : Shot)
    (p : Settled GenerateContentResponse) :
  is_Some (videoRef st) → is_Some (canvasRef st) →
  isAnalyzing st = false → context2d shot = false →
  let st' := run (onClickCapture shot p) st in
  isAnalyzing st' = true
  ∧ log st' = log st
  ∧ input st' = input st
  ∧ isCameraOpen st' = isCameraOpen st
  ∧ ∀ (events : list Event) (shot' : Shot) (p' : Settled GenerateContentResponse),
      let st'' := runEvents events st' in
      isAnalyzing st'' = true
      ∧ run (onClickCapture shot' p') st'' = st''.
Proof.
  intros [v Hv] [c Hc] Ha Hctx. simpl.
  assert (Hset : isAnalyzing (run (onClickCapture shot p) st) = true
                 ∧ log (run (onClickCapture shot p) st) = log st
                 ∧ input (run (onClickCapture shot p) st) = input st
                 ∧ isCameraOpen (run (onClickCapture shot p) st) = isCameraOpen st).
  { destruct_state st. subst. js_unfold. simpl. rewrite Hctx. simpl. done. }
  destruct Hset as (Hset & Hlog & Hin & Hopen).
  repeat split; try done.
  - by apply isAnalyzing_sticks_events.
  - by apply onClickCapture_busy, isAnalyzing_sticks_events.
Qed.

Lemma no_context_locks_shutter_witness :
  let st' := run (onClickCapture (mkShot false EmptyString) Rejected)
                 (demoPreview "egg") in
  isAnalyzing (runEvents [ClickClose; ClickScan (Fulfilled demoCamera)] st') = true.
Proof.
  destruct (no_context_locks_shutter (demoPreview "egg") (mkShot false EmptyString)
              Rejected) as (_ & _ & _ & _ & Hlater);
    [vm_compute; eauto|vm_compute; eauto|reflexivity|reflexivity|].
  apply (Hlater [ClickClose; ClickScan (Fulfilled demoCamera)] demoShot Rejected).
Defined.

(** X6.  The close handler is idempotent and total: from any state it
    leaves the modal closed with no video and no canvas, a second call
    changes nothing, and it touches neither the ingredient field, the
    recipe, the counter, the flags of the two requests nor the log. *)
Theorem stopCamera_idempotent (st : AppState) :
  let st1 := run stopCamera st in
  idle st1
  ∧ run stopCamera st1 = st1
  ∧ input st1 = input st ∧ preference st1 = preference st
  ∧ recipe st1 = recipe st ∧ variationCount st1 = variationCount st
  ∧ loading st1 = loading st ∧ isAnalyzing st1 = isAnalyzing st
  ∧ log st1 = log st
  ∧ length (streams st1) = length (streams st).
Proof.
  destruct_state st. js_unfold. simpl.
  destruct vid as [[[i|]]|]; simpl; repeat split; try done.
  apply length_alter.
Qed.

(** X7.  When the camera cannot be acquired from [Idle], the page is
    left as it was but for its log: the request for the rear camera, one
    console error and one notice to the user, in this order. *)
Theorem acquisition_failure_only_notifies (st : AppState) :
  idle st →
  run (startCamera Rejected) st
  = run (emit (GetUserMedia "environment");;
         emit (ConsoleError "Erro ao acessar câmera:");;
         emit (Alert "Não foi possível acessar a câmera. Verifique as permissões."))
        st.
Proof.
  intros (Ho & Hv & Hc). destruct_state st. subst. js_unfold. simpl. done.
Qed.

Lemma acquisition_failure_only_notifies_witness :
  log (run (startCamera Rejected) demoKitchen)
  = [Alert "Não foi possível acessar a câmera. Verifique as permissões.";
     ConsoleError "Erro ao acessar câmera:"; GetUserMedia "environment"]
  ∧ input (run (startCamera Rejected) demoKitchen) = "rice, egg".
Proof.
  rewrite (acquisition_failure_only_notifies demoKitchen);
    [split; reflexivity|vm_compute; auto].
Defined.

(* ================================================================== *)
(** * The frame sent for analysis                                      *)
(* ================================================================== *)

Lemma chars_append (a b : string) : chars (a +:+ b) = chars a ++ chars b.
Proof.
  induction a as [|c a IH]; [done|].
  change (c :: chars (a +:+ b) = c :: (chars a ++ chars b)). by f_equal.
Qed.

Lemma unchars_chars (s : string) : unchars (chars s) = s.
Proof. apply string_of_list_ascii_of_string. Qed.

Lemma chars_unchars (l : list ascii) : chars (unchars l) = l.
Proof. apply list_ascii_of_string_of_list_ascii. Qed.

Lemma split_chars_free (cur l : list ascii) :
  Forall (λ c, c ≠ ","%char) l →
  split_chars "," cur l = [unchars (rev cur ++ l)].
Proof.
  revert cur. induction l as [|c l IH]; intros cur Hfree; simpl.
  - by rewrite app_nil_r.
  - inversion Hfree as [|? ? Hc Hl]; subst.
    destruct (Ascii.eqb c ",") eqn:E; [by apply Ascii.eqb_eq in E|].
    rewrite IH by done. simpl. by rewrite <- app_assoc.
Qed.

Lemma split_chars_comma (cur h rest : list ascii) :
  Forall (λ c, c ≠ ","%char) h →
  split_chars "," cur (h ++ ","%char :: rest)
  = unchars (rev cur ++ h) :: split_chars "," [] rest.
Proof.
  revert cur. induction h as [|c h IH]; intros cur Hfree; simpl.
  - by rewrite app_nil_r.
  - inversion Hfree as [|? ? Hc Hl]; subst.
    destruct (Ascii.eqb c ",") eqn:E; [by apply Ascii.eqb_eq in E|].
    rewrite IH by done. simpl. by rewrite <- app_assoc.
Qed.

(** [url.split(',')[1]] is what stands between the first comma and the
    next one. *)
Lemma split_second (head payload : string) :
  commaFree head → commaFree payload →
  split "," (head +:+ "," +:+ payload) !! 1 = Some payload.
Proof.
  intros Hh Hp. unfold split. rewrite !chars_append.
  change (chars ",") with [","%char]. simpl.
  rewrite split_chars_comma by done. simpl.
  rewrite split_chars_free by done. simpl. by rewrite unchars_chars.
Qed.

(** X8.  Pressing the shutter on a previewing camera sizes the canvas to
    the frames of the stream on the video, sets the shutter flag, and
    sends one vision request whose image is the part of the canvas data
    URL after its comma, declared as [image/jpeg]; it touches neither
    the device nor the ingredient field. *)
Theorem capture_sends_frame (sid : nat) (st : AppState) (s : MediaStream)
    (shot : Shot) (head payload : string) :
  previewing sid st → streams st !! sid = Some s →
  context2d shot = true →
  toDataURL shot = head +:+ "," +:+ payload →
  commaFree head → commaFree payload →
  let st' := run (captureAndAnalyze_request shot) st in
  log st'
  = GenerateContent "gemini-3-flash-preview"
      (VisionRequest (Some payload) "image/jpeg" visionInstruction) :: log st
  ∧ canvasRef st' = Some (mkCanvas (frameWidth s) (frameHeight s))
  ∧ isAnalyzing st' = true
  ∧ streams st' = streams st
  ∧ videoRef st' = videoRef st
  ∧ input st' = input st.
Proof.
  intros (Ho & Hv & [c Hc] & _) Hs Hctx Hurl Hh Hp.
  destruct_state st. subst. js_unfold. simpl. rewrite Hctx. simpl.
  rewrite Hurl, split_second, Hs by done. simpl. done.
Qed.

Lemma capture_sends_frame_witness :
  log (run (captureAndAnalyze_request demoShot) (demoPreview "egg"))
  = [GenerateContent "gemini-3-flash-preview"
       (VisionRequest (Some "/9j/4AAQSkZJRg==") "image/jpeg" visionInstruction);
     GetUserMedia "environment"]
  ∧ canvasRef (run (captureAndAnalyze_request demoShot) (demoPreview "egg"))
    = Some (mkCanvas 1280 720).
Proof.
  destruct (capture_sends_frame 0 (demoPreview "egg") demoCamera demoShot
              "data:image/jpeg;base64" "/9j/4AAQSkZJRg==")
    as (Hlog & Hcanvas & _);
    [apply demoPreview_previewing|reflexivity|reflexivity|reflexivity
    |repeat constructor; discriminate|repeat constructor; discriminate|].
  split; [exact Hlog|exact Hcanvas].
Defined.

(* ================================================================== *)
(** * The requests and the frame of a generation cycle                 *)
(* ================================================================== *)

Lemma generateRecipe_log_failed isVariation rc ic st :
  truthy (trim (input st)) = true →
  structuredCallSucceeds rc = false →
  log (run (generateRecipe isVariation rc ic) st)
  = ConsoleError "Generation error:" :: recipeRequest st isVariation :: log st.
Proof.
  intros Hb Hf. destruct_state st. js_unfold. simpl. rewrite Hb. simpl.
  destruct rc as [response|]; simpl in Hf.
  - unfold recipeText in Hf. destruct (JSON_parse _); [discriminate|].
    destruct isVariation; simpl; done.
  - destruct isVariation; simpl; done.
Qed.

Lemma generateRecipe_log_succeeded isVariation response ic st v :
  truthy (trim (input st)) = true →
  JSON_parse (recipeText response) = Normal v →
  log (run (generateRecipe isVariation (Fulfilled response) ic) st)
  = ShowRecipe (illustrated v ic)
    :: illustrationTrace v ic ++ recipeRequest st isVariation :: log st.
Proof.
  intros Hb Hp. destruct_state st. js_unfold. simpl. rewrite Hb. simpl.
  unfold recipeText in Hp. rewrite Hp. unfold illustrated, illustrationTrace.
  destruct (Get v "name"); simpl;
    [destruct ic as [img|]; simpl;
     [destruct (findInlinePart img) as [part|]; simpl;
      [destruct (part ≫= inlineData) as [blob|]; simpl;
       [destruct (Put v _ _); simpl|]|]|]|];
    destruct isVariation; simpl; done.
Qed.


Lemma illustrationTrace_quiet v ic :
  List.filter isAlert (illustrationTrace v ic) = []
  ∧ length (List.filter isGenerateContent (illustrationTrace v ic)) ≤ 1.
Proof.
  unfold illustrationTrace. destruct (Get v "name") as [dish|]; [|simpl; auto].
  destruct ic as [img|]; [|simpl; auto].
  destruct (findInlinePart img) as [part|]; [|simpl; auto].
  destruct (part ≫= inlineData) as [blob|]; [|simpl; auto].
  destruct (Put v _ _); simpl; auto.
Qed.



(** X10.  A cycle that starts always ends with the spinner cleared,
    whatever its two requests settle to, and never notifies the user: it
    adds no alert.  It leaves the ingredient field, the preference, the
    camera, the device and the shutter flag as they were, and shows at
    most one recipe. *)
Theorem cycle_frame (st : AppState) (isVariation : bool)
    (rc ic : Settled GenerateContentResponse) :
  truthy (trim (input st)) = true →
  let st' := run (generateRecipe isVariation rc ic) st in
  loading st' = false
  ∧ alerts st' = alerts st
  ∧ input st' = input st ∧ preference st' = preference st
  ∧ isCameraOpen st' = isCameraOpen st ∧ isAnalyzing st' = isAnalyzing st
  ∧ videoRef st' = videoRef st ∧ canvasRef st' = canvasRef st
  ∧ streams st' = streams st
  ∧ recipesShown st ≤ recipesShown st' ≤ recipesShown st + 1.
Proof.
  intros Hb. simpl.
  destruct (generateRecipe_frame isVariation rc ic st)
    as (Hi & Hp & Ho & Ha & Hv & Hc & Hs & Hl).
  split; [by apply Hl|]. split.
  { unfold alerts. destruct (structuredCallSucceeds rc) eqn:Hok.
    - destruct (structuredCallSucceeds_true rc Hok) as (response & v & -> & Hparse).
      rewrite (generateRecipe_log_succeeded isVariation response ic st v Hb Hparse).
      cbn [List.filter isAlert]. rewrite List.filter_app.
      destruct (illustrationTrace_quiet v ic) as [-> _]. reflexivity.
    - rewrite (generateRecipe_log_failed isVariation rc ic st Hb Hok).
      reflexivity. }
  repeat split; try done.
  - destruct (structuredCallSucceeds rc) eqn:Hok.
    + destruct (structuredCallSucceeds_true rc Hok) as (response & v & -> & Hparse).
      destruct (generateRecipe_succeeded isVariation response ic st v Hb Hparse)
        as (_ & _ & _ & _ & Hn). lia.
    + destruct (generateRecipe_failed isVariation rc ic st Hb Hok)
        as (_ & _ & _ & _ & Hn). lia.
  - destruct (structuredCallSucceeds rc) eqn:Hok.
    + destruct (structuredCallSucceeds_true rc Hok) as (response & v & -> & Hparse).
      destruct (generateRecipe_succeeded isVariation response ic st v Hb Hparse)
        as (_ & _ & _ & _ & Hn). lia.
    + destruct (generateRecipe_failed isVariation rc ic st Hb Hok)
        as (_ & _ & _ & _ & Hn). lia.
Qed.

Lemma cycle_frame_witness :
  loading (run (generateRecipe true Rejected Rejected) (demoPreview "egg")) = false
  ∧ isCameraOpen (run (generateRecipe true Rejected Rejected) (demoPreview "egg"))
    = true.
Proof.
  destruct (cycle_frame (demoPreview "egg") true Rejected Rejected)
    as (Hl & _ & _ & _ & Ho & _); [reflexivity|].
  split; [exact Hl|exact Ho].
Defined.

(** X11.  When the text of the structured call parses to a value that is
    neither an object nor an array ([null], a boolean, a number or a
    string), that value is shown as the recipe as it is: no image is
    attached, also when the illustration call returned one.  For [null]
    the illustration request is not even sent. *)
Theorem primitive_is_shown_bare (st : AppState) (isVariation : bool)
    (response : GenerateContentResponse) (ic : Settled GenerateContentResponse)
    (v : JSValue) :
  truthy (trim (input st)) = true →
  JSON_parse (recipeText response) = Normal v →
  isPrimitive v = true →
  let st' := run (generateRecipe isVariation (Fulfilled response) ic) st in
  recipe st' = v
  ∧ asRecipe (recipe st') = None
  ∧ variationCount st' = (if isVariation then S (variationCount st) else 0)
  ∧ (v = JSNull →
     log st' = ShowRecipe JSNull :: imageGenFailed
               :: recipeRequest st isVariation :: log st).
Proof.
  intros Hb Hp Hprim. simpl.
  destruct (generateRecipe_succeeded isVariation response ic st v Hb Hp)
    as (Hr & Hc & _).
  assert (Hbare : illustrated v ic = v).
  { unfold illustrated. destruct v; try discriminate; simpl; try done;
      destruct ic as [img|]; try done;
      destruct (findInlinePart img) as [part|]; try done;
      destruct (part ≫= inlineData); done. }
  rewrite Hr, Hbare. split; [done|]. split; [by destruct v|]. split; [done|].
  intros ->.
  rewrite (generateRecipe_log_succeeded isVariation response ic st JSNull Hb Hp).
  rewrite Hbare. reflexivity.
Qed.

Lemma primitive_is_shown_bare_witness :
  recipe (run (generateRecipe true (Fulfilled (mkResponse None (Some "null")))
                              (illustration jpegBlob)) demoServed) = JSNull
  ∧ variationCount
      (run (generateRecipe true (Fulfilled (mkResponse None (Some "null")))
                           (illustration jpegBlob)) demoServed) = 1.
Proof.
  destruct (primitive_is_shown_bare demoServed true (mkResponse None (Some "null"))
              (illustration jpegBlob) JSNull) as (Hr & _ & Hc & _);
    [reflexivity|reflexivity|reflexivity|].
  split; [exact Hr|exact Hc].
Defined.

(* ================================================================== *)
(** * The ingredient field and [trim]                               *)
(* ================================================================== *)

(** One round of [trim] removes up to three bytes from the front, none
    of them a visible ASCII character. *)
Lemma dropWhiteSpace1_prefix (l : list ascii) (r : list N) :
  dropWhiteSpace1 (map code l) = Some r →
  ∃ k, r = map code (drop k l)
       ∧ Forall (λ c, isVisibleAscii c = false) (take k l).
Proof.
  destruct l as [|c1 l1]; [done|].
  bytes c1; simpl;
    try discriminate;
    try (intros [= <-]; exists 1; split; [reflexivity|repeat constructor]);
    (destruct l1 as [|c2 l2]; [done|]);
    bytes c2; simpl;
    try discriminate;
    try (intros [= <-]; exists 2; split; [reflexivity|repeat constructor]);
    (destruct l2 as [|c3 l3]; [done|]);
    bytes c3; simpl;
    try discriminate;
    try (intros [= <-]; exists 3; split; [reflexivity|repeat constructor]).
Qed.

Lemma dropWhiteSpace1_space (c : ascii) (t : list N) :
  isAsciiSpace c = true → dropWhiteSpace1 (code c :: t) = Some t.
Proof. bytes c; simpl; done. Qed.

Lemma trimStart_fuel_prefix (fuel : nat) (l : list ascii) :
  ∃ k, trimStart_fuel fuel (map code l) = map code (drop k l)
       ∧ Forall (λ c, isVisibleAscii c = false) (take k l).
Proof.
  revert l. induction fuel as [|fuel IH]; intros l.
  { exists 0. by rewrite drop_0, take_0. }
  simpl. destruct (dropWhiteSpace1 (map code l)) as [r|] eqn:Hd.
  - destruct (dropWhiteSpace1_prefix l r Hd) as (k1 & -> & H1).
    destruct (IH (drop k1 l)) as (k2 & -> & H2).
    exists (k1 + k2). rewrite drop_drop. split; [done|].
    rewrite <- take_take_drop. by apply Forall_app.
  - exists 0. by rewrite drop_0, take_0.
Qed.

Lemma trimStart_fuel_spaces (fuel : nat) (l : list ascii) :
  length l ≤ fuel → Forall (λ c, isAsciiSpace c = true) l →
  trimStart_fuel fuel (map code l) = [].
Proof.
  revert l. induction fuel as [|fuel IH]; intros l Hlen Hall.
  { destruct l; [done|simpl in Hlen; lia]. }
  destruct l as [|c l]; [done|].
  apply Forall_cons in Hall as [Hc Hall].
  change (map code (c :: l)) with (code c :: map code l).
  cbn [trimStart_fuel]. rewrite dropWhiteSpace1_space by done.
  apply IH; [simpl in Hlen; lia|done].
Qed.

(** A visible character stops [trimStart] at the latest where it stands. *)
Lemma trimStart_codes_visible (l : list ascii) :
  Exists (λ c, isVisibleAscii c = true) l →
  ∃ c r, trimStart_codes (map code l) = code c :: map code r
         ∧ Exists (λ c, isVisibleAscii c = true) (c :: r).
Proof.
  intros Hex. unfold trimStart_codes.
  destruct (trimStart_fuel_prefix (length (map code l)) l) as (k & -> & Hk).
  rewrite <- (take_drop k l) in Hex. apply Exists_app in Hex as [Hex|Hex].
  { apply Exists_exists in Hex as (c & Hin & Hc).
    rewrite Forall_forall in Hk. specialize (Hk c Hin). congruence. }
  destruct (drop k l) as [|c r]; [by apply Exists_nil in Hex|].
  by exists c, r.
Qed.

Lemma trim_blank (s : string) :
  Forall (λ c, isAsciiSpace c = true) (chars s) → trim s = EmptyString.
Proof.
  intros Hall. unfold trim, trimStart_codes.
  rewrite trimStart_fuel_spaces; [done| |done].
  by rewrite length_map.
Qed.

Lemma trim_visible (s : string) :
  Exists (λ c, isVisibleAscii c = true) (chars s) →
  truthy (trim s) = true.
Proof.
  intros Hex. unfold trim.
  destruct (trimStart_codes_visible _ Hex) as (c & r & -> & Hex').
  destruct (trimStart_codes_visible _ Hex') as (c' & r' & Heq & _).
  change (code c :: map code r) with (map code (c :: r)) at 1.
  change (map code (c :: r)) with (code c :: map code r) at 1.
  simpl trimEnd_codes.
  change (code c :: map code r) with (map code (c :: r)).
  rewrite Heq. reflexivity.
Qed.

(** X12.  A field that holds nothing but ASCII white space (spaces,
    tabs, line feeds, ...) starts no cycle: [generateRecipe], called for
    a first recipe or for a variation, returns at its guard and leaves
    every cell and the log as they were, and so do the two buttons that
    call it. *)
Theorem blank_field_starts_nothing (st : AppState) (isVariation : bool)
    (rc ic : Settled GenerateContentResponse) :
  Forall (λ c, isAsciiSpace c = true) (chars (input st)) →
  run (generateRecipe isVariation rc ic) st = st
  ∧ run (onClickCreate rc ic) st = st
  ∧ run (onClickVariation rc ic) st = st.
Proof.
  intros Hall. apply trim_blank in Hall.
  assert (Hb : truthy (trim (input st)) = false) by by rewrite Hall.
  split; [by apply generateRecipe_blank|].
  split.
  - destruct (onClickCreate_cases rc ic st) as [->|(_ & _ & ->)]; [done|].
    by apply generateRecipe_blank.
  - destruct (onClickVariation_cases rc ic st) as [->|(_ & ->)]; [done|].
    by apply generateRecipe_blank.
Qed.

Lemma blank_field_starts_nothing_witness :
  run (onClickCreate friedRiceCall (illustration jpegBlob))
      (run (onChangeInput (" " +:+ LF +:+ " ")) initial)
  = run (onChangeInput (" " +:+ LF +:+ " ")) initial.
Proof.
  destruct (blank_field_starts_nothing
              (run (onChangeInput (" " +:+ LF +:+ " ")) initial) false
              friedRiceCall (illustration jpegBlob)) as (_ & Hcreate & _).
  - repeat constructor.
  - exact Hcreate.
Defined.

Lemma onClickCreate_enabled rc ic st :
  loading st = false → truthy (trim (input st)) = true →
  run (onClickCreate rc ic) st = run (generateRecipe false rc ic) st.
Proof.
  intros Hl Hb. destruct_state st. simpl in Hl, Hb. subst.
  js_unfold. simpl. rewrite !Hb. simpl. rewrite ?Hb. reflexivity.
Qed.

(** X13.  A field with at least one visible ASCII character is never
    taken for blank, wherever the character stands and whatever
    surrounds it: with no cycle running, the create button sends the
    structured request, which carries the field as it was typed, not
    trimmed, and the counter of variations restarts at 0. *)
Theorem visible_field_sends_request (st : AppState)
    (rc ic : Settled GenerateContentResponse) :
  loading st = false →
  Exists (λ c, isVisibleAscii c = true) (chars (input st)) →
  let st' := run (onClickCreate rc ic) st in
  (∃ rest, log st' = rest ++ recipeRequest st false :: log st)
  ∧ variationCount st' = 0
  ∧ loading st' = false.
Proof.
  intros Hl Hex. apply trim_visible in Hex. simpl.
  rewrite (onClickCreate_enabled rc ic st Hl Hex).
  split.
  - destruct (structuredCallSucceeds rc) eqn:Hs.
    + destruct (structuredCallSucceeds_true rc Hs) as (response & v & -> & Hp).
      rewrite (generateRecipe_log_succeeded false response ic st v Hex Hp).
      exists (ShowRecipe (illustrated v ic) :: illustrationTrace v ic).
      reflexivity.
    + rewrite (generateRecipe_log_failed false rc ic st Hex Hs).
      by exists [ConsoleError "Generation error:"].
  - split; [by rewrite generateRecipe_counter|].
    by apply generateRecipe_frame.
Qed.

Lemma visible_field_sends_request_witness :
  variationCount
    (run (onClickCreate Rejected Rejected)
         (run (onChangeInput ("  ovo" +:+ LF)) demoExhausted)) = 0.
Proof.
  destruct (visible_field_sends_request
              (run (onChangeInput ("  ovo" +:+ LF)) demoExhausted)
              Rejected Rejected) as (_ & Hc & _).
  - reflexivity.
  - right. right. left. reflexivity.
  - exact Hc.
Defined.

(* ================================================================== *)
(** * Scans, one after the other                                    *)
(* ================================================================== *)

Lemma scan_idle (s : Scan) (st : AppState) :
  idle st → context2d (scanShot s) = true →
  input (scan s st)
  = (if truthy (scanned s) then mergeIngredients (scanned s) (input st)
     else input st)
  ∧ idle (scan s st)
  ∧ streams (scan s st)
    = alter stopTracks (length (streams st)) (streams st ++ [scanCamera s]).
Proof.
  intros (Ho & Hv & Hc) Hctx. unfold scan, scanned.
  destruct_state st. simpl in Ho, Hv, Hc. subst.
  js_unfold. simpl. rewrite Hctx. simpl.
  destruct (truthy (or_default (scanText s) EmptyString)); simpl; done.
Qed.

Lemma pieces_cons_merge (p d : string) (ds : list string) :
  join ", " (pieces ((if truthy d then mergeIngredients d p else p) :: ds))
  = join ", " (pieces (p :: d :: ds)).
Proof.
  unfold pieces, mergeIngredients. simpl.
  destruct d as [|c d]; [done|]. simpl truthy. cbv iota.
  destruct p as [|c' p]; [done|]. simpl truthy. cbv iota.
  destruct (List.filter truthy ds) as [|x xs] eqn:Hds.
  - reflexivity.
  - rewrite !join_cons by done. by rewrite !append_assoc.
Qed.

(** X14.  Scans add up.  From an idle page with the device released,
    any number of scans whose analysis is fulfilled leave the page idle
    again with every track stopped, one stream acquired per scan, and
    the field holding the texts that were not empty, the field's own
    first, joined by a comma and a space. *)
Theorem scans_accumulate (l : list Scan) (st : AppState) :
  idle st → released st →
  Forall (λ s, context2d (scanShot s) = true) l →
  let st' := scans l st in
  input st' = join ", " (pieces (input st :: (scanned <$> l)))
  ∧ session_ended st'
  ∧ length (streams st') = length (streams st) + length l.
Proof.
  revert st. induction l as [|s l IH]; intros st Hidle Hrel Hctx; simpl.
  { split; [|split; [done|lia]].
    unfold pieces. simpl. by destruct (input st). }
  apply Forall_cons in Hctx as [Hs Hctx].
  destruct (scan_idle s st Hidle Hs) as (Hi & Hidle' & Hstr).
  assert (Hrel' : released (scan s st)).
  { unfold released. rewrite Hstr. apply alter_stopTracks_released.
    by apply released_others_stopped. }
  destruct (IH (scan s st) Hidle' Hrel' Hctx) as (Hin & Hend & Hlen).
  change (scans (s :: l) st) with (scans l (scan s st)).
  split; [|split; [done|]].
  - rewrite Hin, Hi. apply pieces_cons_merge.
  - rewrite Hlen, Hstr, length_alter, length_app. simpl. lia.
Qed.

Lemma scans_accumulate_witness :
  input (scans [demoScan (Some "ovo"); demoScan None; demoScan (Some "leite")]
               initial)
  = "ovo, leite".
Proof.
  destruct (scans_accumulate
              [demoScan (Some "ovo"); demoScan None; demoScan (Some "leite")]
              initial) as (Hin & _).
  - vm_compute. auto.
  - constructor.
  - repeat constructor.
  - rewrite Hin. reflexivity.
Defined.

(* ================================================================== *)
(** * The preference chips                                          *)
(* ================================================================== *)


(** The steps of the camera leave the cells of the recipe alone. *)
Lemma camera_step_frame (x : Step) (st : AppState) :
  match x with
  | Atomic (ClickScan _ | ClickClose | ClickCapture _ _)
  | ScanRequest | ScanSettled _ | CaptureRequest _ | CaptureSettled _ =>
      let st' := run (stepHandler x) st in
      preference st' = preference st ∧ recipe st' = recipe st
      ∧ variationCount st' = variationCount st ∧ loading st' = loading st
      ∧ copied st' = copied st
  | _ => True
  end.
Proof.
  destruct x as [e| |camera|shot|analysis];
    [destruct e as [value|pref|rc ic|rc ic| |camera| |shot analysis]|..];
    try exact I; destruct_state st; js_unfold_steps; simpl;
    split_branches; done.
Qed.

Lemma step_preference (x : Step) (st : AppState) :
  offeredStep x →
  preference st ∈ EmptyString :: chips →
  preference (run (stepHandler x) st) ∈ EmptyString :: chips.
Proof.
  intros Hx Hst.
  destruct x as [e| |camera|shot|analysis];
    [destruct e as [value|pref|rc ic|rc ic| |camera| |shot analysis]|..].
  - destruct_state st. js_unfold_steps. simpl. done.
  - simpl in Hx. destruct_state st. js_unfold_steps. simpl.
    destruct (String.eqb _ _); [left|by right].
  - cbn [stepHandler handler].
    destruct (onClickCreate_cases rc ic st) as [-> | (_ & _ & ->)]; [done|].
    destruct (generateRecipe_frame false rc ic st) as (_ & -> & _). done.
  - cbn [stepHandler handler].
    destruct (onClickVariation_cases rc ic st) as [-> | (_ & ->)]; [done|].
    destruct (generateRecipe_frame true rc ic st) as (_ & -> & _). done.
  - destruct_state st. js_unfold_steps. simpl. left.
  - destruct (camera_step_frame (Atomic (ClickScan camera)) st) as (-> & _). done.
  - destruct (camera_step_frame (Atomic ClickClose) st) as (-> & _). done.
  - destruct (camera_step_frame (Atomic (ClickCapture shot analysis)) st)
      as (-> & _). done.
  - destruct (camera_step_frame ScanRequest st) as (-> & _). done.
  - destruct (camera_step_frame (ScanSettled camera) st) as (-> & _). done.
  - destruct (camera_step_frame (CaptureRequest shot) st) as (-> & _). done.
  - destruct (camera_step_frame (CaptureSettled analysis) st) as (-> & _). done.
Qed.

(** X15.  The preference is always the empty text or one of the four
    chips: as long as the chips clicked are chips of the page, no step
    makes it anything else.  The system prompt of every request is
    therefore one of five texts. *)
Theorem preference_is_a_chip (steps : list Step) (st : AppState) :
  Forall offeredStep steps →
  preference st ∈ EmptyString :: chips →
  preference (runSteps steps st) ∈ EmptyString :: chips.
Proof.
  revert st. induction steps as [|x steps IH]; intros st Hall Hst; [done|].
  apply Forall_cons in Hall as [Hx Hall].
  apply IH; [done|]. by apply step_preference.
Qed.

Lemma preference_is_a_chip_witness :
  preference
    (runSteps [Atomic (ClickPreference "Vegano");
               Atomic (ClickPreference "Low Carb");
               Atomic (ClickPreference "Low Carb")] initial)
  ∈ EmptyString :: chips.
Proof.
  apply preference_is_a_chip.
  - repeat constructor.
  - left.
Defined.

(* ================================================================== *)
(** * Copying, sharing and printing                                 *)
(* ================================================================== *)

Lemma asRecipe_illustrated (v : JSValue) (r : Recipe)
    (ic : Settled GenerateContentResponse) :
  asRecipe v = Some r →
  asRecipe (illustrated v ic) = Some r
  ∨ ∃ url, asRecipe (illustrated v ic) = Some (withImage r url).
Proof.
  intros Hr. unfold illustrated.
  destruct (Get v "name"); [|by left].
  destruct ic as [img|]; [|by left].
  destruct (findInlinePart img) as [part|]; [|by left].
  destruct (part ≫= inlineData) as [blob|]; [|by left].
  destruct (asRecipe_Put_imageUrl v r
              ("data:image/png;base64," +:+ interpolate (data blob)) Hr)
    as (v' & -> & Hr').
  right. eauto.
Qed.

Lemma exportText_recipe (st : AppState) (r : Recipe) :
  asRecipe (recipe st) = Some r →
  exportText st = Some (getMarkdownRecipe (Some r))
  ∧ shareTitle st = Some ("Receita: " +:+ name r).
Proof.
  unfold exportText, shareTitle. intros Hr.
  destruct (recipe st); try discriminate. rewrite Hr. done.
Qed.

(** X16.  What the copy button writes does not depend on the
    illustration.  After a cycle whose structured call returned the
    recipe [r], a copy whose write goes through puts the export of [r]
    on the clipboard and lights the label, whether the illustration
    step attached an image, returned none or failed. *)
Theorem copied_text_ignores_image (b : Browser) (isVariation : bool)
    (response : GenerateContentResponse)
    (ic : Settled GenerateContentResponse) (v : JSValue) (r : Recipe) :
  truthy (trim (input (page b))) = true →
  JSON_parse (recipeText response) = Normal v →
  asRecipe v = Some r →
  hasClipboard b = true →
  let served :=
    withPage (run (generateRecipe isVariation (Fulfilled response) ic) (page b)) b in
  ∃ b', copyAsMarkdown (Fulfilled tt) served = Some b'
        ∧ clipboard b' = getMarkdownRecipe (Some r) :: clipboard b
        ∧ copied (page b') = true
        ∧ recipe (page b') = illustrated v ic.
Proof.
  intros Hb Hp Hr Hclip. simpl.
  destruct (generateRecipe_succeeded isVariation response ic (page b) v Hb Hp)
    as (Hshown & _).
  set (st' := run (generateRecipe isVariation (Fulfilled response) ic) (page b)) in *.
  assert (Htext : exportText st' = Some (getMarkdownRecipe (Some r))).
  { destruct (asRecipe_illustrated v r ic Hr) as [Hv|[url Hv]];
      rewrite <- Hshown in Hv; by apply exportText_recipe in Hv as [-> _]. }
  unfold copyAsMarkdown, withPage. cbn [page hasClipboard clipboard].
  rewrite Htext, Hclip. simpl. eexists. split; [reflexivity|].
  cbn [clipboard page]. split; [done|].
  clearbody st'. destruct st'. simpl in *. done.
Qed.

Lemma copied_text_ignores_image_witness :
  ∃ b', copyAsMarkdown (Fulfilled tt)
          (withPage (run (generateRecipe false friedRiceCall (illustration jpegBlob))
                         demoKitchen)
                    (freshBrowser true false)) = Some b'
        ∧ clipboard b' = [getMarkdownRecipe (Some friedRice)].
Proof.
  destruct (copied_text_ignores_image
              (withPage demoKitchen (freshBrowser true false)) false
              (mkResponse None (Some friedRiceText)) (illustration jpegBlob)
              (toJS friedRice) friedRice)
    as (b' & Hcopy & Hclip & _);
    [reflexivity|apply friedRiceText_parses|reflexivity|reflexivity|].
  exists b'. split; [exact Hcopy|exact Hclip].
Defined.

(** X17.  The share button.  With a share sheet, [navigator.share] is
    called with the title of the recipe and with the same text the copy
    button writes; whatever the sheet settles to, the clipboard, the
    label, the timers and the recipe are left alone and the user is not
    alerted.  Without a share sheet the button does what the copy button
    does. *)
Theorem share_sheet_or_clipboard (b : Browser) (r : Recipe)
    (outcome written : Settled unit) :
  asRecipe (recipe (page b)) = Some r →
  (hasShare b = true →
   ∃ b', shareRecipe outcome written b = Some b'
         ∧ shared b' = ("Receita: " +:+ name r, getMarkdownRecipe (Some r))
                       :: shared b
         ∧ clipboard b' = clipboard b ∧ timers b' = timers b
         ∧ copied (page b') = copied (page b)
         ∧ recipe (page b') = recipe (page b)
         ∧ alerts (page b') = alerts (page b))
  ∧ (hasShare b = false →
     shareRecipe outcome written b = copyAsMarkdown written b).
Proof.
  intros Hr. destruct (exportText_recipe (page b) r Hr) as [Htext Htitle].
  unfold shareRecipe. rewrite Htext. simpl. split; intros ->; [|done].
  rewrite Htitle. simpl. eexists. split; [reflexivity|]. simpl.
  destruct outcome; [done|]. destruct (page b). done.
Qed.

Lemma share_sheet_or_clipboard_witness :
  shareRecipe Rejected (Fulfilled tt) (withPage demoServed (freshBrowser true false))
  = copyAsMarkdown (Fulfilled tt) (withPage demoServed (freshBrowser true false)).
Proof.
  destruct (share_sheet_or_clipboard (withPage demoServed (freshBrowser true false))
              friedRice Rejected (Fulfilled tt)) as [_ Hcopy].
  - vm_compute. reflexivity.
  - apply Hcopy. reflexivity.
Defined.




